(** * MoMoneyTracker: currency conversion and exchange-rate caching

    A shallow embedding of the currency module (the one that exports
    [getExchangeRate], [convertAmount] and [formatAmount]) together with the
    [exchange_rates] table declared by the Supabase migration.

    - JavaScript numbers that hold rates and amounts are IEEE-754 binary64
      values: Rocq's primitive [float].
    - Millisecond timestamps ([Date.now()], [Date.getTime()]) are integers: [Z].
    - The module-level objects [exchangeRatesCache] and [API_CALLS] and the
      remote table form the state threaded through every call.
    - Everything the outside world decides during one call (the clock
      readings, the outcome of the HTTP request, database failures) is
      collected in a record [Env] that the call receives.
    - A [Date] argument is represented by the string the program derives
      from it, [date.toISOString().split('T')[0]]. *)

From Stdlib Require Import ZArith PrimFloat.
From stdpp Require Import gmap strings list fin_maps sorting.

Local Open Scope string_scope.
Local Open Scope list_scope.
Local Open Scope Z_scope.

(** ** Currencies *)

(** [export type Currency = 'USD' | 'SAR' | 'EGP'] *)
Inductive Currency : Set := USD | SAR | EGP.

#[global] Instance Currency_eq_dec : EqDecision Currency.
Proof. solve_decision. Defined.

Definition Currency_to_pos (c : Currency) : positive :=
  match c with USD => 1 | SAR => 2 | EGP => 3 end%positive.

Definition Currency_of_pos (p : positive) : option Currency :=
  match p with
  | 1 => Some USD | 2 => Some SAR | 3 => Some EGP | _ => None
  end%positive.

#[global] Instance Currency_countable : Countable Currency.
Proof.
  refine {| encode := Currency_to_pos; decode := Currency_of_pos |}.
  intros []; reflexivity.
Defined.

(** The string a [Currency] value is at run time (template literals, JSON keys). *)
Definition code (c : Currency) : string :=
  match c with USD => "USD" | SAR => "SAR" | EGP => "EGP" end.

(** ** Numbers *)

(** JavaScript truthiness of a number: [0], [-0] and [NaN] are falsy. *)
Definition truthy (x : float) : bool :=
  negb (PrimFloat.eqb x 0%float || negb (PrimFloat.eqb x x)).

(** ** The in-memory cache *)

(** [{ rate: number; timestamp: number }] *)
Record CacheEntry : Set := { rate : float; timestamp : Z }.

(** [interface ExchangeRates]: date string, then source currency, then target
    currency. *)
Abbreviation ExchangeRates :=
  (gmap string (gmap Currency (gmap Currency CacheEntry))).

(** [cache[dateStr]?.[fromCurrency]?.[toCurrency]] *)
Definition cache_get (cache : ExchangeRates) (dateStr : string)
    (fromCurrency toCurrency : Currency) : option CacheEntry :=
  cache !! dateStr ≫= fun byFrom =>
  byFrom !! fromCurrency ≫= fun byTo => byTo !! toCurrency.

(** The three statements that follow each [// Cache the result] comment:
    create the missing levels, then assign the entry. *)
Definition cache_put (cache : ExchangeRates) (dateStr : string)
    (fromCurrency toCurrency : Currency) (e : CacheEntry) : ExchangeRates :=
  let cache1 :=
    match cache !! dateStr with
    | None => <[dateStr := ∅]> cache
    | Some _ => cache
    end in
  let byFrom := default ∅ (cache1 !! dateStr) in
  let byFrom1 :=
    match byFrom !! fromCurrency with
    | None => <[fromCurrency := ∅]> byFrom
    | Some _ => byFrom
    end in
  let byTo := default ∅ (byFrom1 !! fromCurrency) in
  <[dateStr := <[fromCurrency := <[toCurrency := e]> byTo]> byFrom1]> cache1.

(** [const CACHE_EXPIRATION = 6 * 60 * 60 * 1000] *)
Definition CACHE_EXPIRATION : Z := 6 * 60 * 60 * 1000.

(** ** The rate limiter *)

Definition MAX_CALLS_PER_MINUTE : nat := 30.
Definition ONE_MINUTE : Z := 60 * 1000.

(** The [while] loop of [canMakeApiCall]: [shift] the oldest record while it
    is more than one minute old. [API_CALLS] is the list of the recorded
    [timestamp] fields, oldest first. *)
Fixpoint prune (now : Z) (calls : list Z) : list Z :=
  match calls with
  | [] => []
  | t :: rest => if ONE_MINUTE <? now - t then prune now rest else calls
  end.

(** ** The [exchange_rates] table *)

(** The columns the program reads or writes. [id] and [created_at] are filled
    by column defaults and never looked at by the client. [updated_at] is in
    milliseconds since the epoch. *)
Record Row : Set := {
  from_currency : Currency;
  to_currency : Currency;
  date : string;
  row_rate : float;
  updated_at : Z
}.

(** The columns of [exchange_rates_currency_pair_date_unique]. *)
Definition same_key (a b : Row) : bool :=
  bool_decide (from_currency a = from_currency b) &&
  bool_decide (to_currency a = to_currency b) &&
  bool_decide (date a = date b).

Definition has_key (f t : Currency) (d : string) (r : Row) : bool :=
  bool_decide (from_currency r = f) &&
  bool_decide (to_currency r = t) &&
  bool_decide (date r = d).

(** [.select('rate, updated_at').eq(..).eq(..).eq(..).single()]: the row when
    exactly one matches, an error (no data) otherwise. *)
Definition select_single (table : list Row) (f t : Currency) (d : string)
    : option Row :=
  match filter (fun r => has_key f t d r = true) table with
  | [r] => Some r
  | _ => None
  end.

(** [.upsert(row, { onConflict: 'from_currency,to_currency,date' })], that is
    [INSERT ... ON CONFLICT (from_currency, to_currency, date) DO UPDATE].
    A fresh key is inserted as sent. On a conflict the existing row is
    updated in place, and the trigger [update_exchange_rates_updated_at]
    (BEFORE UPDATE) replaces [updated_at] by the database clock [db_now]. *)
Fixpoint upsert (db_now : Z) (new : Row) (table : list Row) : list Row :=
  match table with
  | [] => [new]
  | old :: rest =>
      if same_key old new
      then {| from_currency := from_currency new;
              to_currency := to_currency new;
              date := date new;
              row_rate := row_rate new;
              updated_at := db_now |} :: rest
      else old :: upsert db_now new rest
  end.

(** The uniqueness constraint as a predicate on tables. *)
Definition key_of (r : Row) : Currency * Currency * string :=
  (from_currency r, to_currency r, date r).

Definition unique_keys (table : list Row) : Prop := NoDup (key_of <$> table).

(** ** State, environment, effects *)

Record State : Type := {
  exchangeRatesCache : ExchangeRates;
  API_CALLS : list Z;
  exchange_rates : list Row
}.

(** A value raised by [throw] or by a rejected promise. *)
Inductive Thrown : Set :=
| ErrorObject (message : string)   (* [instanceof Error] holds *)
| OtherValue (description : string).

(** The parsed body of the provider's answer. *)
Record ApiResponse : Type := {
  result : string;
  error_type : string;
  conversion_rates : option (gmap string float)
}.

(** What the outside world decides during one call. *)
Record Env : Type := {
  clock_start : Z;          (* [Date.now()] at the top of [getExchangeRate] *)
  select_fails : bool;      (* [dbError] on the select (network, server) *)
  clock_limiter : Z;        (* [Date.now()] inside [canMakeApiCall] *)
  fetch_outcome : Thrown + ApiResponse;  (* [fetch] then [response.json()] *)
  clock_upsert : Z;         (* [new Date()] when the row is built *)
  db_clock : Z;             (* the database's [now()] during the upsert *)
  upsert_error : option string
}.

(** Observable actions on the outside world, in program order. *)
Inductive Effect : Type :=
| DbSelect (f t : Currency) (d : string)
| HttpGet (url : string)
| DbUpsert (row : Row)
| ConsoleError (label : string).

(** ** A small monad for asynchronous, stateful, failing code *)

Inductive Settled (A : Type) : Type :=
| Fulfilled (a : A)
| Rejected (e : Thrown).
Arguments Fulfilled {A} a.
Arguments Rejected {A} e.

Definition Async (A : Type) : Type := State -> Settled A * State * list Effect.

Definition ret {A} (a : A) : Async A := fun s => (Fulfilled a, s, []).

Definition throw {A} (e : Thrown) : Async A := fun s => (Rejected e, s, []).

Definition bind {A B} (m : Async A) (k : A -> Async B) : Async B :=
  fun s =>
    match m s with
    | (Fulfilled a, s1, tr1) =>
        match k a s1 with (r, s2, tr2) => (r, s2, tr1 ++ tr2) end
    | (Rejected e, s1, tr1) => (Rejected e, s1, tr1)
    end.

(** [try { m } catch (error) { h error }] *)
Definition try_catch {A} (m : Async A) (h : Thrown -> Async A) : Async A :=
  fun s =>
    match m s with
    | (Fulfilled a, s1, tr1) => (Fulfilled a, s1, tr1)
    | (Rejected e, s1, tr1) =>
        match h e s1 with (r, s2, tr2) => (r, s2, tr1 ++ tr2) end
    end.

Definition emit (e : Effect) : Async unit := fun s => (Fulfilled tt, s, [e]).

Definition read {A} (f : State -> A) : Async A := fun s => (Fulfilled (f s), s, []).

Definition modify (f : State -> State) : Async unit :=
  fun s => (Fulfilled tt, f s, []).

Declare Scope async_scope.
Delimit Scope async_scope with async.
Notation "x <- m ;; k" := (bind m (fun x => k))
  (at level 100, m at next level, right associativity) : async_scope.
Notation "m ;;; k" := (bind m (fun _ => k))
  (at level 100, right associativity) : async_scope.
Local Open Scope async_scope.

Definition set_cache (c : ExchangeRates) (s : State) : State :=
  {| exchangeRatesCache := c; API_CALLS := API_CALLS s;
     exchange_rates := exchange_rates s |}.

Definition set_calls (l : list Z) (s : State) : State :=
  {| exchangeRatesCache := exchangeRatesCache s; API_CALLS := l;
     exchange_rates := exchange_rates s |}.

Definition set_table (t : list Row) (s : State) : State :=
  {| exchangeRatesCache := exchangeRatesCache s; API_CALLS := API_CALLS s;
     exchange_rates := t |}.

(** ** The program *)

Definition API_KEY : string := "f9a58f72ab3a0f83d914574b".
Definition API_BASE_URL : string := "https://v6.exchangerate-api.com/v6".

(** [function canMakeApiCall(): boolean] *)
Definition canMakeApiCall (w : Env) : Async bool :=
  let now := clock_limiter w in
  modify (fun s => set_calls (prune now (API_CALLS s)) s) ;;;
  calls <- read API_CALLS ;;
  ret (bool_decide (length calls < MAX_CALLS_PER_MINUTE)%nat).

(** [await supabase.from('exchange_rates').select(...)...single()]:
    [Some row] stands for [!dbError && dbRate]. *)
Definition supabase_select (w : Env) (f t : Currency) (d : string)
    : Async (option Row) :=
  emit (DbSelect f t d) ;;;
  table <- read exchange_rates ;;
  ret (if select_fails w then None else select_single table f t d).

(** [await supabase.from('exchange_rates').upsert(...)]: yields [upsertError]. *)
Definition supabase_upsert (w : Env) (row : Row) : Async (option string) :=
  emit (DbUpsert row) ;;;
  match upsert_error w with
  | Some err => ret (Some err)
  | None =>
      modify (fun s => set_table (upsert (db_clock w) row (exchange_rates s)) s) ;;;
      ret None
  end.

(** [await fetch(url)] followed by [await response.json()]. *)
Definition fetch_json (w : Env) (url : string) : Async ApiResponse :=
  emit (HttpGet url) ;;;
  match fetch_outcome w with
  | inl e => throw e
  | inr data => ret data
  end.

Definition cache_store (dateStr : string) (f t : Currency) (e : CacheEntry)
    : Async unit :=
  modify (fun s => set_cache (cache_put (exchangeRatesCache s) dateStr f t e) s).

Definition RATE_LIMIT_MESSAGE : string :=
  "Rate limit exceeded. Please try again later.".

(** Lines 117-123, the limiter gate: [if (!canMakeApiCall()) throw ...]
    followed by [API_CALLS.push({ timestamp: now })]. There is no [await]
    between the test and the [push]. *)
Definition admission (w : Env) (now : Z) : Async unit :=
  ok <- canMakeApiCall w ;;
  if negb ok then throw (ErrorObject RATE_LIMIT_MESSAGE) else
  modify (fun s => set_calls (API_CALLS s ++ [now]) s).

(** Lines 117-172: the limiter gate, the provider request, the write-back. *)
Definition fetchFromApi (w : Env) (fromCurrency toCurrency : Currency)
    (dateStr : string) (now : Z) : Async float :=
  admission w now ;;;
  data <- fetch_json w (API_BASE_URL +:+ "/" +:+ API_KEY +:+ "/latest/" +:+ code fromCurrency) ;;
  if bool_decide (result data = "error")
  then throw (ErrorObject ("API Error: " +:+ error_type data)) else
  match conversion_rates data with
  | None => throw (ErrorObject "Cannot read properties of undefined")
  | Some rates =>
      match rates !! code toCurrency with
      | None => throw (ErrorObject ("No conversion rate found for " +:+ code toCurrency))
      | Some r =>
          if negb (truthy r)
          then throw (ErrorObject ("No conversion rate found for " +:+ code toCurrency))
          else
            upsertError <- supabase_upsert w
              {| from_currency := fromCurrency; to_currency := toCurrency;
                 date := dateStr; row_rate := r;
                 updated_at := clock_upsert w |} ;;
            match upsertError with
            | Some _ => emit (ConsoleError "Error storing exchange rate:")
            | None => ret tt
            end ;;;
            cache_store dateStr fromCurrency toCurrency
              {| rate := r; timestamp := now |} ;;;
            ret r
      end
  end.

(** The body of the [try] block of [getExchangeRate]. *)
Definition resolveRate (w : Env) (fromCurrency toCurrency : Currency)
    (dateStr : string) (now : Z) : Async float :=
  dbRate <- supabase_select w fromCurrency toCurrency dateStr ;;
  match dbRate with
  | Some row =>
      if now - updated_at row <? CACHE_EXPIRATION
      then
        cache_store dateStr fromCurrency toCurrency
          {| rate := row_rate row; timestamp := now |} ;;;
        ret (row_rate row)
      else fetchFromApi w fromCurrency toCurrency dateStr now
  | None => fetchFromApi w fromCurrency toCurrency dateStr now
  end.

(** The test of the first [if]: an entry with a truthy rate, younger than
    [CACHE_EXPIRATION]. *)
Definition cache_hit (cache : ExchangeRates) (dateStr : string)
    (fromCurrency toCurrency : Currency) (now : Z) : option float :=
  match cache_get cache dateStr fromCurrency toCurrency with
  | Some e =>
      if truthy (rate e) && (now - timestamp e <? CACHE_EXPIRATION)
      then Some (rate e) else None
  | None => None
  end.

(** [export async function getExchangeRate(fromCurrency, toCurrency, date)].
    [dateStr] is [date.toISOString().split('T')[0]]. *)
Definition getExchangeRate (w : Env) (fromCurrency toCurrency : Currency)
    (dateStr : string) : Async float :=
  if bool_decide (fromCurrency = toCurrency) then ret 1%float else
  let now := clock_start w in
  cache <- read exchangeRatesCache ;;
  match cache_hit cache dateStr fromCurrency toCurrency now with
  | Some r => ret r
  | None =>
      try_catch (resolveRate w fromCurrency toCurrency dateStr now)
        (fun error =>
           emit (ConsoleError "Error getting exchange rate:") ;;;
           throw (match error with
                  | ErrorObject _ => error
                  | OtherValue _ => ErrorObject "Failed to get exchange rate"
                  end))
  end.

(** [export async function convertAmount(amount, fromCurrency, toCurrency, date)] *)
Definition convertAmount (w : Env) (amount : float)
    (fromCurrency toCurrency : Currency) (dateStr : string) : Async float :=
  try_catch
    (rate <- getExchangeRate w fromCurrency toCurrency dateStr ;;
     ret (amount * rate)%float)
    (fun _ =>
       emit (ConsoleError "Error converting amount:") ;;;
       throw (ErrorObject "Failed to convert amount")).

(** The state of a freshly loaded module in front of a given table. *)
Definition initial (table : list Row) : State :=
  {| exchangeRatesCache := ∅; API_CALLS := []; exchange_rates := table |}.

(** A client request, for runs of several calls in a row. *)
Inductive Request : Type :=
| GetRate (w : Env) (fromCurrency toCurrency : Currency) (dateStr : string)
| Convert (w : Env) (amount : float) (fromCurrency toCurrency : Currency)
    (dateStr : string).

Definition serve (q : Request) : Async float :=
  match q with
  | GetRate w f t d => getExchangeRate w f t d
  | Convert w a f t d => convertAmount w a f t d
  end.

Definition state_after {A} (m : Async A) (s : State) : State := snd (fst (m s)).
Definition outcome_of {A} (m : Async A) (s : State) : Settled A := fst (fst (m s)).
Definition effects_of {A} (m : Async A) (s : State) : list Effect := snd (m s).

(** The state once every request of [qs] has settled, one after the other. *)
Definition run (qs : list Request) (s : State) : State :=
  foldl (fun st q => state_after (serve q) st) s qs.

(** ** Derived notions used in the statements *)

(** The record is older than one minute at [now]. *)
Definition expired (now t : Z) : Prop := ONE_MINUTE < now - t.

(** The limiter lets the call of environment [w] through in state [s]. *)
Definition limiter_admits (w : Env) (s : State) : Prop :=
  (length (prune (clock_limiter w) (API_CALLS s)) < MAX_CALLS_PER_MINUTE)%nat.

(** The row the store answers with when it is younger than six hours. *)
Definition store_fresh (w : Env) (s : State) (f t : Currency) (d : string)
    : option Row :=
  if select_fails w then None else
  match select_single (exchange_rates s) f t d with
  | Some row =>
      if clock_start w - updated_at row <? CACHE_EXPIRATION
      then Some row else None
  | None => None
  end.

(** The usable rate in the provider's answer, if any. *)
Definition provider_rate (w : Env) (t : Currency) : option float :=
  match fetch_outcome w with
  | inl _ => None
  | inr data =>
      if bool_decide (result data = "error") then None else
      match conversion_rates data with
      | None => None
      | Some rates =>
          match rates !! code t with
          | Some r => if truthy r then Some r else None
          | None => None
          end
      end
  end.

Definition provider_url (f : Currency) : string :=
  API_BASE_URL +:+ "/" +:+ API_KEY +:+ "/latest/" +:+ code f.

Definition RATE_LIMIT_ERROR : Thrown := ErrorObject RATE_LIMIT_MESSAGE.

#[global] Instance limiter_admits_dec w s : Decision (limiter_admits w s).
Proof. unfold limiter_admits. apply _. Defined.

(** The row the client sends after a successful request. *)
Definition sent_row (w : Env) (f t : Currency) (d : string) (r : float) : Row :=
  {| from_currency := f; to_currency := t; date := d; row_rate := r;
     updated_at := clock_upsert w |}.

(** What the provider step throws when it yields no usable rate. *)
Definition provider_failure (w : Env) (t : Currency) : Thrown :=
  match fetch_outcome w with
  | inl e => e
  | inr data =>
      if bool_decide (result data = "error")
      then ErrorObject ("API Error: " +:+ error_type data)
      else match conversion_rates data with
           | None => ErrorObject "Cannot read properties of undefined"
           | Some _ => ErrorObject ("No conversion rate found for " +:+ code t)
           end
  end.

(** The [catch] clause of [getExchangeRate]. *)
Definition rethrown (e : Thrown) : Thrown :=
  match e with
  | ErrorObject _ => e
  | OtherValue _ => ErrorObject "Failed to get exchange rate"
  end.

(** The ways a call to [getExchangeRate] can go, each with what it yields:
    the settled promise, the state left behind, the effects performed. *)
Inductive Path (w : Env) (f t : Currency) (d : string) (s : State)
    : Settled float * State * list Effect -> Prop :=
| path_same :
    f = t -> Path w f t d s (Fulfilled 1%float, s, [])
| path_hit r :
    f <> t ->
    cache_hit (exchangeRatesCache s) d f t (clock_start w) = Some r ->
    Path w f t d s (Fulfilled r, s, [])
| path_store row :
    f <> t ->
    cache_hit (exchangeRatesCache s) d f t (clock_start w) = None ->
    store_fresh w s f t d = Some row ->
    Path w f t d s
      (Fulfilled (row_rate row),
       set_cache (cache_put (exchangeRatesCache s) d f t
                    {| rate := row_rate row; timestamp := clock_start w |}) s,
       [DbSelect f t d])
| path_denied :
    f <> t ->
    cache_hit (exchangeRatesCache s) d f t (clock_start w) = None ->
    store_fresh w s f t d = None ->
    ~ limiter_admits w s ->
    Path w f t d s
      (Rejected RATE_LIMIT_ERROR,
       set_calls (prune (clock_limiter w) (API_CALLS s)) s,
       [DbSelect f t d; ConsoleError "Error getting exchange rate:"])
| path_provider_fails :
    f <> t ->
    cache_hit (exchangeRatesCache s) d f t (clock_start w) = None ->
    store_fresh w s f t d = None ->
    limiter_admits w s ->
    provider_rate w t = None ->
    Path w f t d s
      (Rejected (rethrown (provider_failure w t)),
       set_calls (prune (clock_limiter w) (API_CALLS s) ++ [clock_start w]) s,
       [DbSelect f t d; HttpGet (provider_url f);
        ConsoleError "Error getting exchange rate:"])
| path_fetched r :
    f <> t ->
    cache_hit (exchangeRatesCache s) d f t (clock_start w) = None ->
    store_fresh w s f t d = None ->
    limiter_admits w s ->
    provider_rate w t = Some r ->
    upsert_error w = None ->
    Path w f t d s
      (Fulfilled r,
       {| exchangeRatesCache :=
            cache_put (exchangeRatesCache s) d f t
              {| rate := r; timestamp := clock_start w |};
          API_CALLS := prune (clock_limiter w) (API_CALLS s) ++ [clock_start w];
          exchange_rates :=
            upsert (db_clock w) (sent_row w f t d r) (exchange_rates s) |},
       [DbSelect f t d; HttpGet (provider_url f); DbUpsert (sent_row w f t d r)])
| path_fetched_unsaved r err :
    f <> t ->
    cache_hit (exchangeRatesCache s) d f t (clock_start w) = None ->
    store_fresh w s f t d = None ->
    limiter_admits w s ->
    provider_rate w t = Some r ->
    upsert_error w = Some err ->
    Path w f t d s
      (Fulfilled r,
       {| exchangeRatesCache :=
            cache_put (exchangeRatesCache s) d f t
              {| rate := r; timestamp := clock_start w |};
          API_CALLS := prune (clock_limiter w) (API_CALLS s) ++ [clock_start w];
          exchange_rates := exchange_rates s |},
       [DbSelect f t d; HttpGet (provider_url f); DbUpsert (sent_row w f t d r);
        ConsoleError "Error storing exchange rate:"]).

(** A series of admission attempts, one per environment, each recording the
    start time of its call; [true] for an admitted attempt. *)
Fixpoint attempts (ws : list Env) (s : State) : list bool * State :=
  match ws with
  | [] => ([], s)
  | w :: rest =>
      match admission w (clock_start w) s with
      | (Fulfilled _, s', _) =>
          let '(bs, s'') := attempts rest s' in (true :: bs, s'')
      | (Rejected _, s', _) =>
          let '(bs, s'') := attempts rest s' in (false :: bs, s'')
      end
  end.

(** Every clock reading of [w] falls in the ten seconds that start at [t0]. *)
Definition within_10s (t0 : Z) (w : Env) : Prop :=
  (t0 <= clock_start w <= t0 + 10 * 1000) /\
  (t0 <= clock_limiter w <= t0 + 10 * 1000).

(** Every rate held by the cache or by the table is a number other than
    zero (the data model has positive rates only). *)
Definition rates_nonzero (s : State) : Prop :=
  (forall d f t e,
     cache_get (exchangeRatesCache s) d f t = Some e -> truthy (rate e) = true) /\
  Forall (fun row => truthy (row_rate row) = true) (exchange_rates s).

(** ** Concrete scenarios *)

Definition day : string := "2024-06-01".

(** [{ result: "success", conversion_rates: { SAR: 3.75 } }] *)
Definition usd_reply : ApiResponse :=
  {| result := "success"; error_type := "";
     conversion_rates := Some {[ "SAR" := 3.75%float ]} |}.

(** An environment in which every clock reads [now], the database works and
    the provider answers [usd_reply]. *)
Definition calm (now : Z) : Env :=
  {| clock_start := now; select_fails := false; clock_limiter := now;
     fetch_outcome := inr usd_reply; clock_upsert := now; db_clock := now;
     upsert_error := None |}.

(** The same, with a database that refuses the write. *)
Definition read_only (now : Z) : Env :=
  {| clock_start := now; select_fails := false; clock_limiter := now;
     fetch_outcome := inr usd_reply; clock_upsert := now; db_clock := now;
     upsert_error := Some "permission denied for table exchange_rates" |}.

Definition usd_sar_row (r : float) (updated : Z) : Row :=
  {| from_currency := USD; to_currency := SAR; date := day; row_rate := r;
     updated_at := updated |}.

(** Thirty provider calls recorded at time [t], in front of [table]. *)
Definition saturated (t : Z) (table : list Row) : State :=
  {| exchangeRatesCache := ∅; API_CALLS := replicate 30 t;
     exchange_rates := table |}.

#[global] Instance expired_dec now t : Decision (expired now t).
Proof. unfold expired. apply _. Defined.

(** Two writes for the pair USD/EGP on 2024-05-01. *)
Definition usd_egp_row (r : float) (updated : Z) : Row :=
  {| from_currency := USD; to_currency := EGP; date := "2024-05-01";
     row_rate := r; updated_at := updated |}.

(** ** Callers of the conversion functions *)

(** [convertToPreferred] of the currency context. [preferredCurrency] is the
    state of the provider component that the closure reads. *)
Definition convertToPreferred (preferredCurrency : Currency) (w : Env)
    (amount : float) (fromCurrency : Currency) (dateStr : string) : Async float :=
  if bool_decide (fromCurrency = preferredCurrency) then ret amount
  else convertAmount w amount fromCurrency preferredCurrency dateStr.

Inductive TransactionType : Set := income | expense.

(** The fields of a transaction that the conversion code reads. [tx_date]
    stands for the day string of [new Date(transaction.date)]. The fields
    that are only copied ([id], [description], [category]) are left out. *)
Record Transaction : Set := {
  tx_amount : float;
  tx_currency : Currency;
  tx_type : TransactionType;
  tx_date : string
}.

(** A transaction with its optional [convertedAmount]. *)
Record Converted : Set := {
  transaction : Transaction;
  convertedAmount : option float
}.

(** The callback that the transactions screen maps over the rows it loaded
    ([loadTransactions]). *)
Definition processTransaction (userCurrency : Currency) (w : Env)
    (tx : Transaction) : Async Converted :=
  if bool_decide (tx_currency tx <> userCurrency)
  then
    try_catch
      (v <- convertAmount w (tx_amount tx) (tx_currency tx) userCurrency
              (tx_date tx) ;;
       ret {| transaction := tx; convertedAmount := Some v |})
      (fun _ =>
         emit (ConsoleError "Error converting amount:") ;;;
         ret {| transaction := tx; convertedAmount := None |})
  else ret {| transaction := tx; convertedAmount := Some (tx_amount tx) |}.

(** ** The balance chart of the home screen *)

(** A plain object with string keys that are not array indices: its entries
    are enumerated in the order in which the keys were first assigned. *)
Fixpoint obj_get (k : string) (o : list (string * float)) : option float :=
  match o with
  | [] => None
  | (k', v) :: rest => if bool_decide (k' = k) then Some v else obj_get k rest
  end.

Fixpoint obj_set (k : string) (v : float) (o : list (string * float))
    : list (string * float) :=
  match o with
  | [] => [(k, v)]
  | (k', v') :: rest =>
      if bool_decide (k' = k) then (k, v) :: rest
      else (k', v') :: obj_set k v rest
  end.

(** [x || 0] for a number that may be [undefined]. *)
Definition or_zero (x : option float) : float :=
  match x with
  | Some v => if truthy v then v else 0%float
  | None => 0%float
  end.

Section Chart.

(** [new Date(s).toLocaleDateString()], which depends on the locale of the
    device. Its results are date labels, never array indices. *)
Variable toLocaleDateString : string -> string.

(** The body of the [reduce] callback of [getChartData]. *)
Definition add_change (acc : list (string * float)) (c : Converted)
    : list (string * float) :=
  let date := toLocaleDateString (tx_date (transaction c)) in
  let amount := or_zero (convertedAmount c) in
  obj_set date
    (or_zero (obj_get date acc)
     + match tx_type (transaction c) with
       | income => amount
       | expense => - amount
       end)%float
    acc.

(** [recentTransactions.slice().reverse().reduce(..., {})] *)
Definition daily_changes (recent : list Converted) : list (string * float) :=
  foldl add_change [] (reverse recent).

(** The [forEach] over [Object.entries(dates)]: the running balance, kept
    only where it is a finite number. *)
Fixpoint plot (entries : list (string * float)) (balance : float)
    : list string * list float :=
  match entries with
  | [] => ([], [])
  | (date, change) :: rest =>
      let balance' := (balance + change)%float in
      let '(labels, data) := plot rest balance' in
      if is_finite balance' then (date :: labels, balance' :: data)
      else (labels, data)
  end.

(** [getChartData]: the labels and the single data set of the chart. *)
Definition getChartData (recent : list Converted) : list string * list float :=
  if bool_decide (length recent = 0%nat) then (["Today"], [0%float]) else
  let '(labels, data) := plot (daily_changes recent) 0%float in
  if bool_decide (length data = 0%nat) then (["Today"], [0%float])
  else (labels, data).

End Chart.

(** ** Further notions used in the statements *)

(** The environment of a request. *)
Definition env_of (q : Request) : Env :=
  match q with GetRate w _ _ _ => w | Convert w _ _ _ _ => w end.

(** The row that an upsert of [new] at database time [db_now] leaves in
    [table] for the key of [new]. *)
Definition stored_row (db_now : Z) (new : Row) (table : list Row) : Row :=
  if bool_decide (key_of new ∈ key_of <$> table)
  then {| from_currency := from_currency new; to_currency := to_currency new;
          date := date new; row_rate := row_rate new; updated_at := db_now |}
  else new.

(** The effects that reach the database or the provider (all but the
    lines written to the console). *)
Definition is_io (e : Effect) : Prop :=
  match e with ConsoleError _ => False | _ => True end.

#[global] Instance is_io_dec e : Decision (is_io e).
Proof. destruct e; cbn; apply _. Defined.

Definition is_request (e : Effect) : Prop :=
  match e with HttpGet _ => True | _ => False end.

#[global] Instance is_request_dec e : Decision (is_request e).
Proof. destruct e; cbn; apply _. Defined.

(** A provider whose answer carries the error flag. *)
Definition error_reply (kind : string) (rates : option (gmap string float))
    : ApiResponse :=
  {| result := "error"; error_type := kind; conversion_rates := rates |}.

(** An environment in which the database is unreachable for reads and
    writes while the provider answers [usd_reply]. *)
Definition offline_store (now : Z) : Env :=
  {| clock_start := now; select_fails := true; clock_limiter := now;
     fetch_outcome := inr usd_reply; clock_upsert := now; db_clock := now;
     upsert_error := Some "connection refused" |}.

(** An environment whose provider answers [data]. *)
Definition answering (now : Z) (data : ApiResponse) : Env :=
  {| clock_start := now; select_fails := false; clock_limiter := now;
     fetch_outcome := inr data; clock_upsert := now; db_clock := now;
     upsert_error := None |}.

Definition sar_purchase (amount : float) (d : string) : Transaction :=
  {| tx_amount := amount; tx_currency := SAR; tx_type := expense; tx_date := d |}.

(** The calls of a run that sent a request to the provider, in order, each
    with the start time it recorded and the clock reading of its limiter
    check (the request is sent right after the check). *)
Fixpoint sent_requests (qs : list Request) (s : State) : list (Z * Z) :=
  match qs with
  | [] => []
  | q :: rest =>
      let later := sent_requests rest (state_after (serve q) s) in
      if decide (Exists is_request (effects_of (serve q) s))
      then (clock_start (env_of q), clock_limiter (env_of q)) :: later
      else later
  end.

(** Thirty-one requests for USD to EGP, one every three seconds, to a
    provider whose answer has no rate for EGP. *)
Definition polling : list Request :=
  (fun n => GetRate (calm (3000 * n)) USD EGP day) <$> seqZ 0 31.

(** The running balance after each day of the chart, in the order of the
    entries. *)
Fixpoint balances (entries : list (string * float)) (balance : float)
    : list (string * float) :=
  match entries with
  | [] => []
  | (date, change) :: rest =>
      let balance' := (balance + change)%float in
      (date, balance') :: balances rest balance'
  end.

(** An income whose converted amount overflowed to infinity. *)
Definition windfall : Converted :=
  {| transaction := {| tx_amount := infinity; tx_currency := USD;
                       tx_type := income; tx_date := day |};
     convertedAmount := Some infinity |}.

(** * Properties *)

(** ** The cache *)

Lemma cache_get_put cache d f t e :
  cache_get (cache_put cache d f t e) d f t = Some e.
Proof.
  unfold cache_get, cache_put.
  rewrite lookup_insert_eq. cbn.
  rewrite lookup_insert_eq. cbn.
  apply lookup_insert_eq.
Qed.

Lemma cache_hit_put cache d f t r now0 now :
  truthy r = true -> now - now0 < CACHE_EXPIRATION ->
  cache_hit (cache_put cache d f t {| rate := r; timestamp := now0 |}) d f t now
  = Some r.
Proof.
  intros Hr Hlt. unfold cache_hit. rewrite cache_get_put. cbn.
  rewrite Hr. cbn.
  destruct (Z.ltb_spec (now - now0) CACHE_EXPIRATION); [reflexivity | lia].
Qed.

(** ** The pruning loop *)

Lemma prune_split now calls :
  exists dropped, calls = dropped ++ prune now calls /\ Forall (expired now) dropped.
Proof.
  induction calls as [|t rest IH]; cbn.
  - exists []. split; [reflexivity | constructor].
  - destruct (Z.ltb_spec ONE_MINUTE (now - t)) as [Hold|Hyoung].
    + destruct IH as (dropped & Heq & Hall).
      exists (t :: dropped). split.
      * cbn. congruence.
      * constructor; assumption.
    + exists []. split; [reflexivity | constructor].
Qed.

Lemma prune_length now calls : (length (prune now calls) <= length calls)%nat.
Proof.
  destruct (prune_split now calls) as (dropped & Heq & _).
  rewrite Heq at 2. rewrite length_app. lia.
Qed.

Lemma prune_head now calls t :
  head (prune now calls) = Some t -> ~ expired now t.
Proof.
  induction calls as [|u rest IH]; cbn; [discriminate|].
  destruct (Z.ltb_spec ONE_MINUTE (now - u)) as [Hold|Hyoung]; [exact IH|].
  cbn. intros [= <-]. unfold expired. lia.
Qed.

Lemma prune_fresh_head now t rest :
  ~ expired now t -> prune now (t :: rest) = t :: rest.
Proof.
  unfold expired. intros H. cbn.
  destruct (Z.ltb_spec ONE_MINUTE (now - t)); [lia | reflexivity].
Qed.

Lemma prune_expired_head now t rest :
  expired now t -> prune now (t :: rest) = prune now rest.
Proof.
  unfold expired. intros H. cbn.
  destruct (Z.ltb_spec ONE_MINUTE (now - t)); [reflexivity | lia].
Qed.

(** When the records are in increasing order (calls made one after the
    other), the loop removes every expired record. *)
Lemma prune_sorted now calls :
  Sorted Z.le calls -> Forall (fun t => ~ expired now t) (prune now calls).
Proof.
  induction calls as [|t rest IH]; intros Hs; cbn; [constructor|].
  destruct (Z.ltb_spec ONE_MINUTE (now - t)) as [Hold|Hyoung].
  - apply IH. by inversion Hs.
  - apply Sorted_StronglySorted in Hs; [|intros x y z; lia].
    inversion Hs as [|? ? Hs' Hall]; subst.
    constructor; [unfold expired; lia|].
    eapply Forall_impl; [exact Hall|]. cbn. unfold expired. intros u Hu. lia.
Qed.

(** ** Evaluation of the program, path by path *)

Lemma admission_admitted w now s :
  limiter_admits w s ->
  admission w now s =
    (Fulfilled tt,
     set_calls (prune (clock_limiter w) (API_CALLS s) ++ [now]) s, []).
Proof.
  unfold limiter_admits. intros H.
  unfold admission, canMakeApiCall, bind, modify, read, ret. cbn.
  rewrite bool_decide_eq_true_2 by exact H. reflexivity.
Qed.

Lemma admission_denied w now s :
  ~ limiter_admits w s ->
  admission w now s =
    (Rejected RATE_LIMIT_ERROR,
     set_calls (prune (clock_limiter w) (API_CALLS s)) s, []).
Proof.
  unfold limiter_admits. intros H.
  unfold admission, canMakeApiCall, bind, modify, read, ret. cbn.
  rewrite bool_decide_eq_false_2 by exact H. reflexivity.
Qed.

(** Runs the provider step of [fetchFromApi] through every shape of answer,
    closing the cases that the hypotheses exclude or that hold by
    computation. *)
Ltac provider_step w t :=
  unfold fetch_json, supabase_upsert, cache_store, bind, emit, modify, ret, throw;
  destruct (fetch_outcome w) as [?e|?data];
    [first [discriminate | reflexivity]|]; cbn;
  destruct (bool_decide (result _ = "error"));
    [first [discriminate | reflexivity]|];
  destruct (conversion_rates _) as [?rates|];
    [|first [discriminate | reflexivity]];
  destruct (_ !! code t) as [?r|];
    [|first [discriminate | reflexivity]];
  destruct (truthy _) eqn:?Htruthy; try first [discriminate | reflexivity].

Lemma fetchFromApi_denied w f t d now s :
  ~ limiter_admits w s ->
  fetchFromApi w f t d now s =
    (Rejected RATE_LIMIT_ERROR,
     set_calls (prune (clock_limiter w) (API_CALLS s)) s, []).
Proof.
  intros H. unfold fetchFromApi, bind at 1.
  rewrite admission_denied by exact H. reflexivity.
Qed.

Lemma fetchFromApi_stored w f t d now s r :
  limiter_admits w s -> provider_rate w t = Some r -> upsert_error w = None ->
  fetchFromApi w f t d now s =
    (Fulfilled r,
     {| exchangeRatesCache :=
          cache_put (exchangeRatesCache s) d f t {| rate := r; timestamp := now |};
        API_CALLS := prune (clock_limiter w) (API_CALLS s) ++ [now];
        exchange_rates := upsert (db_clock w) (sent_row w f t d r) (exchange_rates s) |},
     [HttpGet (provider_url f); DbUpsert (sent_row w f t d r)]).
Proof.
  intros Hadm Hrate Hup. unfold fetchFromApi, bind at 1.
  rewrite admission_admitted by exact Hadm.
  unfold provider_rate in Hrate. provider_step w t.
  injection Hrate as ->. cbn. rewrite Hup. reflexivity.
Qed.

Lemma fetchFromApi_not_stored w f t d now s r err :
  limiter_admits w s -> provider_rate w t = Some r ->
  upsert_error w = Some err ->
  fetchFromApi w f t d now s =
    (Fulfilled r,
     {| exchangeRatesCache :=
          cache_put (exchangeRatesCache s) d f t {| rate := r; timestamp := now |};
        API_CALLS := prune (clock_limiter w) (API_CALLS s) ++ [now];
        exchange_rates := exchange_rates s |},
     [HttpGet (provider_url f); DbUpsert (sent_row w f t d r);
      ConsoleError "Error storing exchange rate:"]).
Proof.
  intros Hadm Hrate Hup. unfold fetchFromApi, bind at 1.
  rewrite admission_admitted by exact Hadm.
  unfold provider_rate in Hrate. provider_step w t.
  injection Hrate as ->. cbn. rewrite Hup. reflexivity.
Qed.

Lemma fetchFromApi_provider_fails w f t d now s :
  limiter_admits w s -> provider_rate w t = None ->
  fetchFromApi w f t d now s =
    (Rejected (provider_failure w t),
     set_calls (prune (clock_limiter w) (API_CALLS s) ++ [now]) s,
     [HttpGet (provider_url f)]).
Proof.
  intros Hadm Hrate. unfold fetchFromApi, bind at 1.
  rewrite admission_admitted by exact Hadm.
  unfold provider_rate in Hrate. unfold provider_failure.
  provider_step w t.
Qed.

Lemma resolveRate_store_fresh w f t d s row :
  store_fresh w s f t d = Some row ->
  resolveRate w f t d (clock_start w) s =
    (Fulfilled (row_rate row),
     set_cache (cache_put (exchangeRatesCache s) d f t
                  {| rate := row_rate row; timestamp := clock_start w |}) s,
     [DbSelect f t d]).
Proof.
  unfold store_fresh. intros H.
  unfold resolveRate, supabase_select, cache_store, bind, emit, read, modify, ret.
  cbn.
  destruct (select_fails w); [discriminate|].
  destruct (select_single (exchange_rates s) f t d) as [row0|]; [|discriminate].
  destruct (clock_start w - updated_at row0 <? CACHE_EXPIRATION); [|discriminate].
  injection H as ->. reflexivity.
Qed.

Lemma resolveRate_store_miss w f t d s :
  store_fresh w s f t d = None ->
  resolveRate w f t d (clock_start w) s =
    (let '(r, s', tr) := fetchFromApi w f t d (clock_start w) s in
     (r, s', DbSelect f t d :: tr)).
Proof.
  unfold store_fresh. intros H.
  unfold resolveRate, supabase_select, bind, emit, read, ret. cbn.
  destruct (select_fails w).
  - destruct (fetchFromApi w f t d (clock_start w) s) as [[r s'] tr]. reflexivity.
  - destruct (select_single (exchange_rates s) f t d) as [row0|].
    + destruct (clock_start w - updated_at row0 <? CACHE_EXPIRATION); [discriminate|].
      destruct (fetchFromApi w f t d (clock_start w) s) as [[r s'] tr]. reflexivity.
    + destruct (fetchFromApi w f t d (clock_start w) s) as [[r s'] tr]. reflexivity.
Qed.

Lemma getExchangeRate_same w x d s :
  getExchangeRate w x x d s = (Fulfilled 1%float, s, []).
Proof.
  unfold getExchangeRate. rewrite bool_decide_eq_true_2 by reflexivity.
  reflexivity.
Qed.

Lemma getExchangeRate_hit w f t d s r :
  f <> t ->
  cache_hit (exchangeRatesCache s) d f t (clock_start w) = Some r ->
  getExchangeRate w f t d s = (Fulfilled r, s, []).
Proof.
  intros Hne Hhit. unfold getExchangeRate.
  rewrite bool_decide_eq_false_2 by exact Hne.
  unfold bind, read. cbn. rewrite Hhit. reflexivity.
Qed.

(** *** Past the in-memory cache

    The lemmas of this section share the two facts that send a call to the
    [try] block: the currencies differ and the cache has no fresh entry. *)
Section CacheMiss.

Variables (w : Env) (f t : Currency) (d : string) (s : State).
Hypothesis Hne : f <> t.
Hypothesis Hmiss :
  cache_hit (exchangeRatesCache s) d f t (clock_start w) = None.

Lemma getExchangeRate_miss :
  getExchangeRate w f t d s =
    match resolveRate w f t d (clock_start w) s with
    | (Fulfilled r, s', tr) => (Fulfilled r, s', tr)
    | (Rejected e, s', tr) =>
        (Rejected (rethrown e), s',
         tr ++ [ConsoleError "Error getting exchange rate:"])
    end.
Proof.
  unfold getExchangeRate.
  rewrite bool_decide_eq_false_2 by exact Hne.
  cbv zeta. generalize (resolveRate w f t d (clock_start w)). intros R.
  unfold bind at 1, read. cbn. rewrite Hmiss.
  unfold try_catch.
  destruct (R s) as [[[r|e] s'] tr]; [reflexivity|].
  unfold bind, emit, throw, rethrown. cbn. reflexivity.
Qed.

Lemma getExchangeRate_store_hit row :
  store_fresh w s f t d = Some row ->
  getExchangeRate w f t d s =
    (Fulfilled (row_rate row),
     set_cache (cache_put (exchangeRatesCache s) d f t
                  {| rate := row_rate row; timestamp := clock_start w |}) s,
     [DbSelect f t d]).
Proof.
  intros Hrow. rewrite getExchangeRate_miss.
  rewrite (resolveRate_store_fresh _ _ _ _ _ _ Hrow). reflexivity.
Qed.

Hypothesis Hstore : store_fresh w s f t d = None.

Lemma getExchangeRate_denied :
  ~ limiter_admits w s ->
  getExchangeRate w f t d s =
    (Rejected RATE_LIMIT_ERROR,
     set_calls (prune (clock_limiter w) (API_CALLS s)) s,
     [DbSelect f t d; ConsoleError "Error getting exchange rate:"]).
Proof.
  intros Hden. rewrite getExchangeRate_miss.
  rewrite resolveRate_store_miss by exact Hstore.
  rewrite fetchFromApi_denied by exact Hden. reflexivity.
Qed.

Hypothesis Hadm : limiter_admits w s.

Lemma getExchangeRate_provider_fails :
  provider_rate w t = None ->
  getExchangeRate w f t d s =
    (Rejected (rethrown (provider_failure w t)),
     set_calls (prune (clock_limiter w) (API_CALLS s) ++ [clock_start w]) s,
     [DbSelect f t d; HttpGet (provider_url f);
      ConsoleError "Error getting exchange rate:"]).
Proof.
  intros Hrate. rewrite getExchangeRate_miss.
  rewrite resolveRate_store_miss by exact Hstore.
  rewrite fetchFromApi_provider_fails by assumption. reflexivity.
Qed.

Lemma getExchangeRate_fetched r :
  provider_rate w t = Some r ->
  upsert_error w = None ->
  getExchangeRate w f t d s =
    (Fulfilled r,
     {| exchangeRatesCache :=
          cache_put (exchangeRatesCache s) d f t
            {| rate := r; timestamp := clock_start w |};
        API_CALLS := prune (clock_limiter w) (API_CALLS s) ++ [clock_start w];
        exchange_rates :=
          upsert (db_clock w) (sent_row w f t d r) (exchange_rates s) |},
     [DbSelect f t d; HttpGet (provider_url f); DbUpsert (sent_row w f t d r)]).
Proof.
  intros Hrate Hup. rewrite getExchangeRate_miss.
  rewrite resolveRate_store_miss by exact Hstore.
  rewrite (fetchFromApi_stored _ _ _ _ _ _ _ Hadm Hrate Hup). reflexivity.
Qed.

Lemma getExchangeRate_fetched_unsaved r err :
  provider_rate w t = Some r ->
  upsert_error w = Some err ->
  getExchangeRate w f t d s =
    (Fulfilled r,
     {| exchangeRatesCache :=
          cache_put (exchangeRatesCache s) d f t
            {| rate := r; timestamp := clock_start w |};
        API_CALLS := prune (clock_limiter w) (API_CALLS s) ++ [clock_start w];
        exchange_rates := exchange_rates s |},
     [DbSelect f t d; HttpGet (provider_url f); DbUpsert (sent_row w f t d r);
      ConsoleError "Error storing exchange rate:"]).
Proof.
  intros Hrate Hup. rewrite getExchangeRate_miss.
  rewrite resolveRate_store_miss by exact Hstore.
  rewrite (fetchFromApi_not_stored _ _ _ _ _ _ _ _ Hadm Hrate Hup). reflexivity.
Qed.

End CacheMiss.

Lemma convertAmount_eq w a f t d s :
  convertAmount w a f t d s =
    match getExchangeRate w f t d s with
    | (Fulfilled r, s', tr) => (Fulfilled (a * r)%float, s', tr)
    | (Rejected _, s', tr) =>
        (Rejected (ErrorObject "Failed to convert amount"), s',
         tr ++ [ConsoleError "Error converting amount:"])
    end.
Proof.
  unfold convertAmount, try_catch, bind at 1.
  destruct (getExchangeRate w f t d s) as [[[r|e] s'] tr]; cbn.
  - rewrite app_nil_r. reflexivity.
  - reflexivity.
Qed.

(** Every call follows one of the paths of [Path]. *)
Lemma getExchangeRate_path w f t d s : Path w f t d s (getExchangeRate w f t d s).
Proof.
  destruct (decide (f = t)) as [->|Hne].
  { rewrite getExchangeRate_same. by constructor. }
  destruct (cache_hit (exchangeRatesCache s) d f t (clock_start w)) as [r|] eqn:Hc.
  { rewrite (getExchangeRate_hit _ _ _ _ _ _ Hne Hc). by constructor. }
  destruct (store_fresh w s f t d) as [row|] eqn:Hs.
  { rewrite (getExchangeRate_store_hit w f t d s Hne Hc row Hs). by constructor. }
  destruct (decide (limiter_admits w s)) as [Ha|Hd].
  2: { rewrite getExchangeRate_denied by assumption. by constructor. }
  destruct (provider_rate w t) as [r|] eqn:Hp.
  2: { rewrite getExchangeRate_provider_fails by assumption. by constructor. }
  destruct (upsert_error w) as [err|] eqn:Hu.
  - rewrite (getExchangeRate_fetched_unsaved w f t d s Hne Hc Hs Ha r err Hp Hu).
    by econstructor.
  - rewrite (getExchangeRate_fetched w f t d s Hne Hc Hs Ha r Hp Hu).
    by constructor.
Qed.

(** * The properties of the specification *)

(** ** C9: identity short-circuit *)

(** C9. For every currency [x], every date, every state and whatever the
    outside world would answer, [getExchangeRate(x, x, date)] is fulfilled
    with [1], leaves the cache, the limiter and the table as they were, and
    performs no effect at all: no lookup, no upsert, no request, no log. *)
Theorem identity_short_circuit (w : Env) (x : Currency) (d : string) (s : State) :
  getExchangeRate w x x d s = (Fulfilled 1%float, s, []).
Proof.
  unfold getExchangeRate.
  rewrite bool_decide_eq_true_2 by reflexivity. reflexivity.
Qed.

(** ** C6: a fresh row of the store is written back to the cache *)

(** C6, as amended. When the in-memory cache misses and the store answers
    with a row less than six hours old, [getExchangeRate] is fulfilled with
    the row's rate; its only effect is the select (no request to the
    provider, no upsert, and the limiter is untouched); and the cache entry
    it creates carries the row's rate together with the time of the call. *)
Theorem store_hit_write_back (w : Env) (f t : Currency) (d : string)
    (s : State) (row : Row) :
  f <> t ->
  cache_hit (exchangeRatesCache s) d f t (clock_start w) = None ->
  select_fails w = false ->
  select_single (exchange_rates s) f t d = Some row ->
  clock_start w - updated_at row < CACHE_EXPIRATION ->
  outcome_of (getExchangeRate w f t d) s = Fulfilled (row_rate row) /\
  effects_of (getExchangeRate w f t d) s = [DbSelect f t d] /\
  cache_get (exchangeRatesCache (state_after (getExchangeRate w f t d) s)) d f t
    = Some {| rate := row_rate row; timestamp := clock_start w |} /\
  API_CALLS (state_after (getExchangeRate w f t d) s) = API_CALLS s /\
  exchange_rates (state_after (getExchangeRate w f t d) s) = exchange_rates s.
Proof.
  intros Hne Hmiss Hsel Hrow Hfresh.
  assert (Hs : store_fresh w s f t d = Some row).
  { unfold store_fresh. rewrite Hsel, Hrow.
    destruct (Z.ltb_spec (clock_start w - updated_at row) CACHE_EXPIRATION);
      [reflexivity | lia]. }
  unfold outcome_of, effects_of, state_after.
  rewrite (getExchangeRate_store_hit w f t d s Hne Hmiss row Hs). cbn.
  rewrite cache_get_put. auto.
Qed.

Lemma store_hit_write_back_witness :
  outcome_of (getExchangeRate (calm 2000) USD SAR day)
    (initial [usd_sar_row 3.75 1000]) = Fulfilled 3.75%float /\
  effects_of (getExchangeRate (calm 2000) USD SAR day)
    (initial [usd_sar_row 3.75 1000]) = [DbSelect USD SAR day].
Proof.
  pose proof (store_hit_write_back (calm 2000) USD SAR day
                (initial [usd_sar_row 3.75 1000]) (usd_sar_row 3.75 1000)) as H.
  destruct H as (H1 & H2 & _).
  - discriminate.
  - reflexivity.
  - reflexivity.
  - reflexivity.
  - reflexivity.
  - split; [exact H1 | exact H2].
Defined.

(** C6 as stated fails: the store answers with a row updated at [1000], the
    call is made at [2000] and served from that row, and the cache entry it
    creates is stamped [2000], not [1000]. *)
Lemma store_hit_timestamp_is_not_last_updated :
  select_single (exchange_rates (initial [usd_sar_row 3.75 1000])) USD SAR day
    = Some (usd_sar_row 3.75 1000) /\
  effects_of (getExchangeRate (calm 2000) USD SAR day)
    (initial [usd_sar_row 3.75 1000]) = [DbSelect USD SAR day] /\
  timestamp <$>
    cache_get (exchangeRatesCache
                 (state_after (getExchangeRate (calm 2000) USD SAR day)
                    (initial [usd_sar_row 3.75 1000]))) day USD SAR
    = Some 2000 /\
  timestamp <$>
    cache_get (exchangeRatesCache
                 (state_after (getExchangeRate (calm 2000) USD SAR day)
                    (initial [usd_sar_row 3.75 1000]))) day USD SAR
    <> Some (updated_at (usd_sar_row 3.75 1000)).
Proof.
  split; [reflexivity|]. split; [vm_compute; reflexivity|].
  split; [vm_compute; reflexivity | vm_compute; discriminate].
Qed.

(** ** C8: a failed write to the store does not fail the call *)

(** C8. When the call reaches the provider, the provider yields a usable rate
    [r], and the upsert that follows fails, [getExchangeRate] is still
    fulfilled with [r]; the cache holds [r] stamped with the time of the
    call; the table is unchanged; the failure shows only as a line on the
    console. [convertAmount] is fulfilled as well. *)
Theorem store_write_failure_is_not_fatal (w : Env) (f t : Currency)
    (d : string) (s : State) (r : float) (err : string) :
  f <> t ->
  cache_hit (exchangeRatesCache s) d f t (clock_start w) = None ->
  store_fresh w s f t d = None ->
  limiter_admits w s ->
  provider_rate w t = Some r ->
  upsert_error w = Some err ->
  outcome_of (getExchangeRate w f t d) s = Fulfilled r /\
  effects_of (getExchangeRate w f t d) s =
    [DbSelect f t d; HttpGet (provider_url f); DbUpsert (sent_row w f t d r);
     ConsoleError "Error storing exchange rate:"] /\
  cache_get (exchangeRatesCache (state_after (getExchangeRate w f t d) s)) d f t
    = Some {| rate := r; timestamp := clock_start w |} /\
  exchange_rates (state_after (getExchangeRate w f t d) s) = exchange_rates s /\
  forall a, outcome_of (convertAmount w a f t d) s = Fulfilled (a * r)%float.
Proof.
  intros Hne Hmiss Hstore Hadm Hrate Hup.
  unfold outcome_of, effects_of, state_after.
  setoid_rewrite convertAmount_eq.
  rewrite (getExchangeRate_fetched_unsaved w f t d s Hne Hmiss Hstore Hadm r err
             Hrate Hup).
  cbn. rewrite cache_get_put. auto.
Qed.

Lemma store_write_failure_is_not_fatal_witness :
  outcome_of (getExchangeRate (read_only 5000) USD SAR day) (initial [])
    = Fulfilled 3.75%float /\
  outcome_of (convertAmount (read_only 5000) 200 USD SAR day) (initial [])
    = Fulfilled 750%float.
Proof.
  pose proof (store_write_failure_is_not_fatal (read_only 5000) USD SAR day
                (initial []) 3.75
                "permission denied for table exchange_rates") as H.
  destruct H as (H1 & _ & _ & _ & H5).
  - discriminate.
  - reflexivity.
  - reflexivity.
  - unfold limiter_admits. cbn. unfold MAX_CALLS_PER_MINUTE. lia.
  - reflexivity.
  - reflexivity.
  - split; [exact H1 | exact (H5 200%float)].
Defined.

(** ** Rates in the cache are never zero *)

Lemma cache_get_put_other cache d f t e d' f' t' :
  (d', f', t') <> (d, f, t) ->
  cache_get (cache_put cache d f t e) d' f' t' = cache_get cache d' f' t'.
Proof.
  intros Hne. unfold cache_get, cache_put.
  destruct (decide (d' = d)) as [->|Hd].
  2: { rewrite lookup_insert_ne by congruence.
       destruct (cache !! d); [reflexivity|].
       rewrite lookup_insert_ne by congruence. reflexivity. }
  rewrite lookup_insert_eq. cbn.
  destruct (decide (f' = f)) as [->|Hf].
  - rewrite lookup_insert_eq. cbn.
    assert (Ht : t <> t') by congruence.
    rewrite lookup_insert_ne by exact Ht.
    destruct (cache !! d) as [byFrom|] eqn:Hc; cbn; rewrite ?Hc; cbn.
    + destruct (byFrom !! f) as [byTo|] eqn:Hb; cbn; rewrite ?Hb; cbn;
        [reflexivity|].
      rewrite lookup_insert_eq. cbn. apply lookup_empty.
    + rewrite lookup_insert_eq. cbn. rewrite lookup_empty. cbn.
      rewrite lookup_insert_eq. cbn. apply lookup_empty.
  - rewrite lookup_insert_ne by congruence.
    destruct (cache !! d) as [byFrom|] eqn:Hc; cbn; rewrite ?Hc; cbn.
    + destruct (byFrom !! f); [reflexivity|].
      rewrite lookup_insert_ne by congruence. reflexivity.
    + rewrite lookup_insert_eq. cbn. rewrite lookup_empty. cbn.
      rewrite lookup_insert_ne by congruence. rewrite lookup_empty.
      reflexivity.
Qed.

Lemma cache_put_nonzero cache d f t e :
  truthy (rate e) = true ->
  (forall d' f' t' e',
     cache_get cache d' f' t' = Some e' -> truthy (rate e') = true) ->
  forall d' f' t' e',
    cache_get (cache_put cache d f t e) d' f' t' = Some e' ->
    truthy (rate e') = true.
Proof.
  intros He Hall d' f' t' e'.
  destruct (decide ((d', f', t') = (d, f, t))) as [[= -> -> ->]|Hne].
  - rewrite cache_get_put. by intros [= <-].
  - rewrite cache_get_put_other by exact Hne. apply Hall.
Qed.

Lemma select_single_in table f t d row :
  select_single table f t d = Some row -> row ∈ table.
Proof.
  unfold select_single.
  destruct (filter _ table) as [|x [|y l]] eqn:Hf; try discriminate.
  intros [= <-].
  assert (Hx : x ∈ filter (fun r => has_key f t d r = true) table)
    by (rewrite Hf; apply list_elem_of_here).
  by apply list_elem_of_filter in Hx as [_ Hx].
Qed.

Lemma store_fresh_in w s f t d row :
  store_fresh w s f t d = Some row -> row ∈ exchange_rates s.
Proof.
  unfold store_fresh. destruct (select_fails w); [discriminate|].
  destruct (select_single _ f t d) as [row0|] eqn:Hs; [|discriminate].
  destruct (_ <? _); [|discriminate]. intros [= <-].
  by eapply select_single_in.
Qed.

Lemma provider_rate_nonzero w t r :
  provider_rate w t = Some r -> truthy r = true.
Proof.
  unfold provider_rate. destruct (fetch_outcome w) as [e|data]; [discriminate|].
  destruct (bool_decide _); [discriminate|].
  destruct (conversion_rates data) as [rates|]; [|discriminate].
  destruct (rates !! code t) as [r0|]; [|discriminate].
  destruct (truthy r0) eqn:Hr; [|discriminate]. by intros [= <-].
Qed.

Lemma upsert_nonzero db_now new table :
  truthy (row_rate new) = true ->
  Forall (fun row => truthy (row_rate row) = true) table ->
  Forall (fun row => truthy (row_rate row) = true) (upsert db_now new table).
Proof.
  intros Hnew. induction 1 as [|x rest Hx Hrest IH]; cbn.
  - by apply Forall_singleton.
  - destruct (same_key x new); constructor; auto.
Qed.

(** The invariant holds in every state reached from a table that satisfies
    it, so every rate the program ever caches is a number other than zero. *)
Lemma getExchangeRate_rates_nonzero w f t d s :
  rates_nonzero s -> rates_nonzero (state_after (getExchangeRate w f t d) s).
Proof.
  intros [Hcache Htable]. unfold state_after.
  pose proof (getExchangeRate_path w f t d s) as P.
  inversion P as [ | | row ? ? Hrow | | | r ? ? ? ? Hr ? | r err ? ? ? ? Hr ? ];
    subst; cbn [fst snd]; unfold rates_nonzero; cbn;
    try (split; assumption).
  - split; [|exact Htable]. apply cache_put_nonzero; [|exact Hcache]. cbn.
    apply store_fresh_in in Hrow.
    by apply (proj1 (Forall_forall _ _) Htable).
  - apply provider_rate_nonzero in Hr. split.
    + by apply cache_put_nonzero.
    + by apply upsert_nonzero.
  - apply provider_rate_nonzero in Hr. split; [|exact Htable].
    by apply cache_put_nonzero.
Qed.

Lemma run_rates_nonzero qs : forall s,
  rates_nonzero s -> rates_nonzero (run qs s).
Proof.
  unfold run. induction qs as [|q rest IH]; intros s Hs; cbn; [exact Hs|].
  apply IH. destruct q as [w f t d | w a f t d]; cbn [serve].
  - by apply getExchangeRate_rates_nonzero.
  - unfold state_after. rewrite convertAmount_eq.
    pose proof (getExchangeRate_rates_nonzero w f t d s Hs) as H.
    unfold state_after in H.
    destruct (getExchangeRate w f t d s) as [[[r|e] s'] tr]; exact H.
Qed.

(** ** C2: the six-hour freshness window of the in-memory cache *)

(** A call that went past the in-memory cache and was fulfilled leaves the
    rate it returns in the cache, stamped with its own start time. *)
Lemma resolution_is_cached w f t d s r s' tr :
  getExchangeRate w f t d s = (Fulfilled r, s', tr) -> tr <> [] ->
  cache_get (exchangeRatesCache s') d f t
  = Some {| rate := r; timestamp := clock_start w |}.
Proof.
  intros Heq Htr. pose proof (getExchangeRate_path w f t d s) as P.
  rewrite Heq in P.
  inversion P; subst; try congruence; cbn; apply cache_get_put.
Qed.

(** A cache miss starts with the lookup in the store. *)
Lemma miss_starts_with_select w f t d s :
  f <> t ->
  cache_hit (exchangeRatesCache s) d f t (clock_start w) = None ->
  exists tr, effects_of (getExchangeRate w f t d) s = DbSelect f t d :: tr.
Proof.
  intros Hne Hmiss. unfold effects_of.
  pose proof (getExchangeRate_path w f t d s) as P.
  inversion P; subst; try congruence; cbn; eauto.
Qed.

(** C2. Let the cache hold, for [(d, f, t)], a rate [r] stamped [t0] (the
    start time of the call that resolved it), [r] being a number other than
    zero. A call whose clock reads less than six hours after [t0], so in
    particular at [t0 + 5h59m], is fulfilled with [r], performs no effect (no
    lookup in the store, no request) and changes nothing. A call at
    [t0 + 6h] or later, so in particular at [t0 + 6h01m], is not served by
    the entry: it fails the test [now - timestamp < CACHE_EXPIRATION], made
    when the entry is read, and runs the resolution again, which starts with
    the lookup in the store, stops there when the store has a fresh row, and
    goes on to the provider when it has none and the limiter admits. *)
Theorem cache_freshness_window (w : Env) (f t : Currency) (d : string)
    (s : State) (r : float) (t0 : Z) :
  f <> t ->
  truthy r = true ->
  cache_get (exchangeRatesCache s) d f t = Some {| rate := r; timestamp := t0 |} ->
  (clock_start w - t0 < CACHE_EXPIRATION ->
     getExchangeRate w f t d s = (Fulfilled r, s, [])) /\
  (clock_start w = t0 + (5 * 60 + 59) * 60 * 1000 ->
     getExchangeRate w f t d s = (Fulfilled r, s, [])) /\
  (CACHE_EXPIRATION <= clock_start w - t0 ->
     cache_hit (exchangeRatesCache s) d f t (clock_start w) = None /\
     (exists tr, effects_of (getExchangeRate w f t d) s = DbSelect f t d :: tr) /\
     (forall row, store_fresh w s f t d = Some row ->
        outcome_of (getExchangeRate w f t d) s = Fulfilled (row_rate row) /\
        effects_of (getExchangeRate w f t d) s = [DbSelect f t d]) /\
     (store_fresh w s f t d = None -> limiter_admits w s ->
        exists tr, effects_of (getExchangeRate w f t d) s
                   = DbSelect f t d :: HttpGet (provider_url f) :: tr)) /\
  (clock_start w = t0 + (6 * 60 + 1) * 60 * 1000 ->
     exists tr, effects_of (getExchangeRate w f t d) s = DbSelect f t d :: tr).
Proof.
  intros Hne Hr Hget.
  assert (Hfresh : clock_start w - t0 < CACHE_EXPIRATION ->
                   getExchangeRate w f t d s = (Fulfilled r, s, [])).
  { intros Hlt. apply getExchangeRate_hit; [exact Hne|].
    unfold cache_hit. rewrite Hget. cbn. rewrite Hr. cbn.
    destruct (Z.ltb_spec (clock_start w - t0) CACHE_EXPIRATION);
      [reflexivity | lia]. }
  assert (Hstale : CACHE_EXPIRATION <= clock_start w - t0 ->
                   cache_hit (exchangeRatesCache s) d f t (clock_start w) = None).
  { intros Hge. unfold cache_hit. rewrite Hget. cbn.
    destruct (Z.ltb_spec (clock_start w - t0) CACHE_EXPIRATION); [lia|].
    by rewrite andb_false_r. }
  split; [exact Hfresh|]. split.
  { intros Heq. apply Hfresh. unfold CACHE_EXPIRATION. lia. }
  split.
  - intros Hge. specialize (Hstale Hge).
    split; [exact Hstale|]. split; [by apply miss_starts_with_select|]. split.
    + intros row Hrow. unfold outcome_of, effects_of.
      rewrite (getExchangeRate_store_hit w f t d s Hne Hstale row Hrow). auto.
    + intros Hnone Hadm. unfold effects_of.
      pose proof (getExchangeRate_path w f t d s) as P.
      inversion P; subst; try congruence; cbn; eauto.
  - intros Heq. apply miss_starts_with_select; [exact Hne|].
    apply Hstale. unfold CACHE_EXPIRATION. lia.
Qed.

Lemma cache_freshness_window_witness :
  getExchangeRate (calm (1000 + (5 * 60 + 59) * 60 * 1000)) USD SAR day
    (state_after (getExchangeRate (calm 1000) USD SAR day) (initial []))
  = (Fulfilled 3.75%float,
     state_after (getExchangeRate (calm 1000) USD SAR day) (initial []), []) /\
  exists tr,
    effects_of (getExchangeRate (calm (1000 + (6 * 60 + 1) * 60 * 1000)) USD SAR day)
      (state_after (getExchangeRate (calm 1000) USD SAR day) (initial []))
    = DbSelect USD SAR day :: tr.
Proof.
  assert (Hne : USD <> SAR) by discriminate.
  assert (Hr : truthy 3.75 = true) by reflexivity.
  assert (Hget : cache_get
            (exchangeRatesCache
               (state_after (getExchangeRate (calm 1000) USD SAR day) (initial [])))
            day USD SAR = Some {| rate := 3.75; timestamp := 1000 |})
    by (vm_compute; reflexivity).
  split.
  - pose proof (cache_freshness_window
                  (calm (1000 + (5 * 60 + 59) * 60 * 1000)) USD SAR day _ _ _
                  Hne Hr Hget) as (_ & H & _).
    apply H. reflexivity.
  - pose proof (cache_freshness_window
                  (calm (1000 + (6 * 60 + 1) * 60 * 1000)) USD SAR day _ _ _
                  Hne Hr Hget) as (_ & _ & _ & H).
    apply H. reflexivity.
Defined.

(** ** C4: when the call fails with the rate-limit error *)

Lemma rethrown_provider_failure_not_rate_limit w t :
  fetch_outcome w <> inl RATE_LIMIT_ERROR ->
  rethrown (provider_failure w t) <> RATE_LIMIT_ERROR.
Proof.
  intros Hw. unfold provider_failure, RATE_LIMIT_ERROR, RATE_LIMIT_MESSAGE in *.
  destruct (fetch_outcome w) as [[m|v]|data]; cbn.
  - congruence.
  - discriminate.
  - destruct (bool_decide (result data = "error")); cbn; [discriminate|].
    destruct (conversion_rates data); cbn; discriminate.
Qed.

(** C4 as stated fails: the store holds a row for the key, more than six
    hours old; the limiter is full; the call is rejected with the rate-limit
    error and the old rate is not returned. *)
Lemma stale_row_is_no_fallback :
  select_single (exchange_rates (saturated 21600500 [usd_sar_row 3.75 0]))
    USD SAR day = Some (usd_sar_row 3.75 0) /\
  CACHE_EXPIRATION <= clock_start (calm 21601000) - updated_at (usd_sar_row 3.75 0) /\
  ~ limiter_admits (calm 21601000) (saturated 21600500 [usd_sar_row 3.75 0]) /\
  outcome_of (getExchangeRate (calm 21601000) USD SAR day)
    (saturated 21600500 [usd_sar_row 3.75 0]) = Rejected RATE_LIMIT_ERROR /\
  outcome_of (getExchangeRate (calm 21601000) USD SAR day)
    (saturated 21600500 [usd_sar_row 3.75 0]) <> Fulfilled 3.75%float.
Proof.
  split; [reflexivity|]. split; [vm_compute; discriminate|].
  split; [unfold limiter_admits; vm_compute; lia|].
  split; [vm_compute; reflexivity | vm_compute; discriminate].
Qed.

(** C4, as amended. Unless the provider's own request throws that very
    error, [getExchangeRate] is rejected with the rate-limit error exactly
    when the two currencies differ, the in-memory cache has no fresh entry,
    the store yields no fresh row (the lookup fails, finds nothing, or finds
    a row six hours old or older) and the limiter denies admission. A stale
    entry or a stale row changes nothing: it is not used as a fallback. *)
Theorem rate_limit_failure_iff (w : Env) (f t : Currency) (d : string) (s : State) :
  fetch_outcome w <> inl RATE_LIMIT_ERROR ->
  outcome_of (getExchangeRate w f t d) s = Rejected RATE_LIMIT_ERROR
  <->
  (f <> t /\
   cache_hit (exchangeRatesCache s) d f t (clock_start w) = None /\
   store_fresh w s f t d = None /\
   ~ limiter_admits w s).
Proof.
  intros Hw. unfold outcome_of. split.
  - intros Hrej. pose proof (getExchangeRate_path w f t d s) as P.
    inversion P as [ | | | | ? ? ? ? ? Heq | | ]; subst;
      try (match goal with H : _ = getExchangeRate _ _ _ _ _ |- _ =>
             rewrite <- H in Hrej; cbn in Hrej; try discriminate end).
    + auto.
    + exfalso. injection Hrej as Hrej.
      by apply (rethrown_provider_failure_not_rate_limit w t Hw).
  - intros (Hne & Hmiss & Hstore & Hden).
    rewrite getExchangeRate_denied by assumption. reflexivity.
Qed.

Lemma rate_limit_failure_iff_witness :
  outcome_of (getExchangeRate (calm 21601000) USD SAR day)
    (saturated 21600500 []) = Rejected RATE_LIMIT_ERROR.
Proof.
  apply (rate_limit_failure_iff (calm 21601000) USD SAR day (saturated 21600500 [])).
  - discriminate.
  - split; [discriminate|]. split; [reflexivity|]. split; [reflexivity|].
    unfold limiter_admits. vm_compute. lia.
Defined.

(** ** C5: how failures reach the caller *)

(** C5 as stated fails: when the limiter denies, [getExchangeRate] is
    rejected with the rate-limit error while [convertAmount], on the same
    input, is rejected with a different, generic error. *)
Lemma convertAmount_replaces_the_error :
  outcome_of (getExchangeRate (calm 21601000) USD SAR day) (saturated 21600500 [])
    = Rejected (ErrorObject "Rate limit exceeded. Please try again later.") /\
  outcome_of (convertAmount (calm 21601000) 200 USD SAR day) (saturated 21600500 [])
    = Rejected (ErrorObject "Failed to convert amount") /\
  outcome_of (convertAmount (calm 21601000) 200 USD SAR day) (saturated 21600500 [])
    <> outcome_of (getExchangeRate (calm 21601000) USD SAR day) (saturated 21600500 []).
Proof.
  split; [vm_compute; reflexivity|]. split; [vm_compute; reflexivity|].
  vm_compute. discriminate.
Qed.

(** C5, as amended. Every failure of the resolution (limiter denial, error
    payload, missing rate, failed request) rejects [getExchangeRate] with the
    error that was thrown, unchanged when it is an [Error] object, and the
    call never answers with a rate in its place: a fulfilled call returns
    [1] for equal currencies, a fresh cache entry, a fresh row of the store,
    or the rate the provider has just sent. [convertAmount] is rejected
    whenever [getExchangeRate] is, but always with its own generic error
    "Failed to convert amount"; when [getExchangeRate] is fulfilled with
    [r] it is fulfilled with [amount * r]. *)
Theorem failures_reach_the_caller (w : Env) (a : float) (f t : Currency)
    (d : string) (s : State) :
  (f <> t ->
   cache_hit (exchangeRatesCache s) d f t (clock_start w) = None ->
   store_fresh w s f t d = None ->
   (~ limiter_admits w s ->
      outcome_of (getExchangeRate w f t d) s = Rejected RATE_LIMIT_ERROR) /\
   (limiter_admits w s -> provider_rate w t = None ->
      outcome_of (getExchangeRate w f t d) s
      = Rejected (rethrown (provider_failure w t)))) /\
  (forall m, rethrown (ErrorObject m) = ErrorObject m) /\
  (forall e, outcome_of (getExchangeRate w f t d) s = Rejected e ->
     outcome_of (convertAmount w a f t d) s
     = Rejected (ErrorObject "Failed to convert amount") /\
     state_after (convertAmount w a f t d) s
     = state_after (getExchangeRate w f t d) s /\
     effects_of (convertAmount w a f t d) s
     = effects_of (getExchangeRate w f t d) s
       ++ [ConsoleError "Error converting amount:"]) /\
  (forall r, outcome_of (getExchangeRate w f t d) s = Fulfilled r ->
     outcome_of (convertAmount w a f t d) s = Fulfilled (a * r)%float /\
     ((f = t /\ r = 1%float) \/
      cache_hit (exchangeRatesCache s) d f t (clock_start w) = Some r \/
      (exists row, store_fresh w s f t d = Some row /\ r = row_rate row) \/
      (limiter_admits w s /\ provider_rate w t = Some r))).
Proof.
  unfold outcome_of, state_after, effects_of.
  rewrite convertAmount_eq.
  split; [|split; [|split]].
  - intros Hne Hmiss Hstore. split.
    + intros Hden. rewrite getExchangeRate_denied by assumption. reflexivity.
    + intros Hadm Hnone.
      rewrite getExchangeRate_provider_fails by assumption. reflexivity.
  - reflexivity.
  - intros e. destruct (getExchangeRate w f t d s) as [[[r|e'] s'] tr]; cbn;
      [discriminate | auto].
  - intros r. pose proof (getExchangeRate_path w f t d s) as P.
    inversion P; subst; cbn; try discriminate; intros [= <-];
      (split; [reflexivity|]); eauto 6.
Qed.

Lemma failures_reach_the_caller_witness :
  outcome_of (getExchangeRate (calm 21601000) USD SAR day) (saturated 21600500 [])
    = Rejected RATE_LIMIT_ERROR /\
  outcome_of (convertAmount (calm 21601000) 200 USD SAR day) (saturated 21600500 [])
    = Rejected (ErrorObject "Failed to convert amount").
Proof.
  pose proof (failures_reach_the_caller (calm 21601000) 200 USD SAR day
                (saturated 21600500 [])) as (H1 & _ & H3 & _).
  assert (Hden : ~ limiter_admits (calm 21601000) (saturated 21600500 []))
    by (unfold limiter_admits; vm_compute; lia).
  destruct H1 as (H1 & _).
  - discriminate.
  - reflexivity.
  - reflexivity.
  - split; [exact (H1 Hden)|].
    exact (proj1 (H3 _ (H1 Hden))).
Defined.

(** ** C7: the upsert is idempotent on its key, last write wins *)

Lemma same_key_has_key old new :
  same_key old new = has_key (from_currency new) (to_currency new) (date new) old.
Proof. reflexivity. Qed.

Lemma has_key_spec f t d r : has_key f t d r = true <-> key_of r = (f, t, d).
Proof.
  unfold has_key, key_of. rewrite !andb_true_iff, !bool_decide_eq_true.
  split; [intros [[-> ->] ->]; reflexivity | intros [= -> -> ->]; auto].
Qed.

Lemma filter_absent f t d (table : list Row) :
  (f, t, d) ∉ key_of <$> table ->
  filter (fun r => has_key f t d r = true) table = [].
Proof.
  induction table as [|x rest IH]; intros Hnot; [reflexivity|].
  rewrite fmap_cons, not_elem_of_cons in Hnot. destruct Hnot as [Hx Hrest].
  rewrite filter_cons_False; [by apply IH|].
  rewrite has_key_spec. congruence.
Qed.

Lemma upsert_keys db_now new table k :
  k ∈ key_of <$> upsert db_now new table ->
  k = key_of new \/ k ∈ key_of <$> table.
Proof.
  induction table as [|x rest IH]; cbn.
  - rewrite list_elem_of_singleton. auto.
  - destruct (same_key x new) eqn:Hk; rewrite !fmap_cons, !elem_of_cons.
    + cbn. intros [->|H]; [left; reflexivity | auto].
    + intros [->|H]; [auto|]. destruct (IH H); auto.
Qed.

Lemma upsert_unique db_now new table :
  unique_keys table -> unique_keys (upsert db_now new table).
Proof.
  unfold unique_keys. induction table as [|x rest IH]; cbn; intros Hnd.
  - apply NoDup_singleton.
  - apply NoDup_cons in Hnd as [Hx Hrest].
    destruct (same_key x new) eqn:Hk; cbn; apply NoDup_cons.
    + split; [|exact Hrest].
      rewrite same_key_has_key, has_key_spec in Hk.
      unfold key_of in *. cbn. congruence.
    + split; [|by apply IH].
      intros Hin. apply upsert_keys in Hin as [Heq|Hin]; [|contradiction].
      assert (same_key x new = true); [|congruence].
      rewrite same_key_has_key, has_key_spec. exact Heq.
Qed.

Lemma upsert_length_present db_now new table :
  key_of new ∈ key_of <$> table ->
  length (upsert db_now new table) = length table.
Proof.
  induction table as [|x rest IH]; cbn; [by rewrite elem_of_nil|].
  rewrite elem_of_cons. intros Hin.
  destruct (same_key x new) eqn:Hk; cbn; [reflexivity|].
  f_equal. apply IH. destruct Hin as [Heq|Hin]; [|exact Hin].
  assert (same_key x new = true); [|congruence].
  rewrite same_key_has_key, has_key_spec.
  symmetry. exact Heq.
Qed.

Lemma upsert_has_key db_now new table :
  key_of new ∈ key_of <$> upsert db_now new table.
Proof.
  induction table as [|x rest IH]; cbn.
  - apply list_elem_of_singleton. reflexivity.
  - destruct (same_key x new) eqn:Hk; rewrite fmap_cons, elem_of_cons.
    + left. reflexivity.
    + right. exact IH.
Qed.

Lemma same_key_true a b : key_of a = key_of b -> same_key a b = true.
Proof.
  intros H. rewrite same_key_has_key. apply has_key_spec.
  rewrite H. reflexivity.
Qed.

(** Two writes for one key, on a table that satisfies the constraint. *)
Lemma upsert_twice f t d r1 c1 n1 r2 c2 n2 table :
  unique_keys table ->
  filter (fun r => has_key f t d r = true)
    (upsert n2 {| from_currency := f; to_currency := t; date := d;
                  row_rate := r2; updated_at := c2 |}
       (upsert n1 {| from_currency := f; to_currency := t; date := d;
                     row_rate := r1; updated_at := c1 |} table))
  = [{| from_currency := f; to_currency := t; date := d;
        row_rate := r2; updated_at := n2 |}].
Proof.
  unfold unique_keys. induction table as [|x rest IH]; intros Hnd.
  - cbn [upsert]. rewrite same_key_true by reflexivity.
    rewrite filter_cons_True by (by apply has_key_spec). reflexivity.
  - rewrite fmap_cons in Hnd. apply NoDup_cons in Hnd as [Hx Hrest].
    cbn [upsert]. destruct (same_key x _) eqn:Hk.
    + cbn [upsert]. rewrite same_key_true by reflexivity.
      rewrite filter_cons_True by (by apply has_key_spec).
      f_equal. apply filter_absent.
      rewrite same_key_has_key, has_key_spec in Hk. cbn in Hk.
      rewrite <- Hk. exact Hx.
    + cbn [upsert].
      assert (Hk2 : same_key x {| from_currency := f; to_currency := t; date := d;
                                  row_rate := r2; updated_at := c2 |} = false)
        by exact Hk.
      rewrite Hk2.
      rewrite filter_cons_False; [by apply IH|].
      rewrite same_key_has_key in Hk. cbn in Hk. congruence.
Qed.

(** C7, as amended. On a table that satisfies the uniqueness constraint, two
    upserts in a row for the key [(f, t, d)] leave exactly one row with that
    key. Its rate is the rate of the second write. Its [updated_at] is [n2],
    the database clock at the second write, which the update trigger puts
    in the column in place of the timestamp that the write sent; nothing of
    the first write remains. The second upsert adds no row, and the table
    still satisfies the constraint. When the database clock agrees with the
    timestamp the client sent, the row is the second row exactly as sent. *)
Theorem upsert_last_write_wins (table : list Row) (f t : Currency) (d : string)
    (r1 r2 : float) (c1 c2 n1 n2 : Z) :
  unique_keys table ->
  let first := {| from_currency := f; to_currency := t; date := d;
                  row_rate := r1; updated_at := c1 |} in
  let second := {| from_currency := f; to_currency := t; date := d;
                   row_rate := r2; updated_at := c2 |} in
  let stored := {| from_currency := f; to_currency := t; date := d;
                   row_rate := r2; updated_at := n2 |} in
  let table1 := upsert n1 first table in
  let table2 := upsert n2 second table1 in
  filter (fun r => has_key f t d r = true) table2 = [stored] /\
  select_single table2 f t d = Some stored /\
  length table2 = length table1 /\
  unique_keys table2 /\
  (n2 = c2 -> select_single table2 f t d = Some second).
Proof.
  intros Hu first second stored table1 table2.
  assert (Hf : filter (fun r => has_key f t d r = true) table2 = [stored])
    by (apply upsert_twice; exact Hu).
  assert (Hs : select_single table2 f t d = Some stored)
    by (unfold select_single; rewrite Hf; reflexivity).
  split; [exact Hf|]. split; [exact Hs|]. split.
  - apply upsert_length_present. apply (upsert_has_key n1 first table).
  - split; [by do 2 apply upsert_unique|].
    intros ->. exact Hs.
Qed.

Lemma upsert_last_write_wins_witness :
  filter (fun r => has_key USD EGP "2024-05-01" r = true)
    (upsert 2004 (usd_egp_row 48.25 2000)
       (upsert 1003 (usd_egp_row 47.5 1000) [usd_sar_row 3.75 500]))
  = [usd_egp_row 48.25 2004].
Proof.
  refine (proj1 (upsert_last_write_wins [usd_sar_row 3.75 500] USD EGP
                   "2024-05-01" 47.5 48.25 1000 2000 1003 2004 _)).
  unfold unique_keys. cbn. apply NoDup_singleton.
Defined.

(** C7 as stated fails: the second write sends the timestamp [2000] and
    reaches the database when its clock reads [2004]; the one row left for
    the key has the second rate, and its [updated_at] is [2004], not the
    timestamp of the second write. *)
Lemma second_write_timestamp_is_replaced :
  select_single
    (upsert 2004 (usd_egp_row 48.25 2000)
       (upsert 1003 (usd_egp_row 47.5 1000) []))
    USD EGP "2024-05-01"
  = Some (usd_egp_row 48.25 2004) /\
  updated_at <$>
    select_single
      (upsert 2004 (usd_egp_row 48.25 2000)
         (upsert 1003 (usd_egp_row 47.5 1000) []))
      USD EGP "2024-05-01"
  <> Some (updated_at (usd_egp_row 48.25 2000)).
Proof.
  split; [reflexivity | vm_compute; discriminate].
Qed.

(** ** C3: the sliding-window limiter *)

Lemma prune_all_young now calls :
  Forall (fun t => ~ expired now t) calls -> prune now calls = calls.
Proof.
  destruct calls as [|t rest]; [reflexivity|].
  intros H. apply Forall_cons in H as [Ht _]. by apply prune_fresh_head.
Qed.

Lemma set_calls_same s : set_calls (API_CALLS s) s = s.
Proof. by destruct s. Qed.

Lemma young_within_10s t0 w (calls : list Z) :
  within_10s t0 w ->
  Forall (fun t => t0 <= t <= t0 + 10 * 1000) calls ->
  Forall (fun t => ~ expired (clock_limiter w) t) calls.
Proof.
  intros (_ & Hlim) Hall. eapply Forall_impl; [exact Hall|].
  cbn. unfold expired, ONE_MINUTE. intros t Ht. lia.
Qed.

(** While there is room, every attempt of the ten seconds is admitted. *)
Lemma attempts_room t0 ws : forall s,
  Forall (within_10s t0) ws ->
  Forall (fun t => t0 <= t <= t0 + 10 * 1000) (API_CALLS s) ->
  (length (API_CALLS s) + length ws <= MAX_CALLS_PER_MINUTE)%nat ->
  attempts ws s =
    (replicate (length ws) true,
     set_calls (API_CALLS s ++ (clock_start <$> ws)) s).
Proof.
  induction ws as [|w rest IH]; intros s Hws Hcalls Hlen.
  - cbn. rewrite app_nil_r, set_calls_same. reflexivity.
  - apply Forall_cons in Hws as [Hw Hrest]. cbn [attempts].
    assert (Hkeep : prune (clock_limiter w) (API_CALLS s) = API_CALLS s)
      by (apply prune_all_young; eapply young_within_10s; eassumption).
    rewrite admission_admitted
      by (unfold limiter_admits; rewrite Hkeep; cbn in Hlen; lia).
    rewrite Hkeep. rewrite IH; cbn.
    + rewrite <- app_assoc. reflexivity.
    + exact Hrest.
    + apply Forall_app. split; [exact Hcalls|].
      apply Forall_singleton. destruct Hw as (Hs & _). exact Hs.
    + rewrite length_app. cbn in *. lia.
Qed.

(** Once thirty are recorded, every attempt of the ten seconds is denied. *)
Lemma attempts_full t0 ws : forall s,
  Forall (within_10s t0) ws ->
  Forall (fun t => t0 <= t <= t0 + 10 * 1000) (API_CALLS s) ->
  length (API_CALLS s) = MAX_CALLS_PER_MINUTE ->
  attempts ws s = (replicate (length ws) false, s).
Proof.
  induction ws as [|w rest IH]; intros s Hws Hcalls Hlen; [reflexivity|].
  apply Forall_cons in Hws as [Hw Hrest]. cbn [attempts].
  assert (Hkeep : prune (clock_limiter w) (API_CALLS s) = API_CALLS s)
    by (apply prune_all_young; eapply young_within_10s; eassumption).
  rewrite admission_denied by (unfold limiter_admits; rewrite Hkeep; lia).
  rewrite Hkeep, set_calls_same. rewrite IH by assumption. reflexivity.
Qed.

Lemma attempts_app ws1 ws2 : forall s,
  attempts (ws1 ++ ws2) s =
    (let '(b1, s1) := attempts ws1 s in
     let '(b2, s2) := attempts ws2 s1 in (b1 ++ b2, s2)).
Proof.
  induction ws1 as [|w rest IH]; intros s.
  - cbn. destruct (attempts ws2 s). reflexivity.
  - rewrite <- app_comm_cons. cbn [attempts].
    destruct (admission w (clock_start w) s) as [[[u|e] s'] tr];
      rewrite IH; destruct (attempts rest s') as [b1 s1];
      destruct (attempts ws2 s1) as [b2 s2]; reflexivity.
Qed.

(** Thirty-one attempts in ten seconds on an idle limiter. *)
Lemma thirty_one_attempts t0 ws s :
  API_CALLS s = [] -> length ws = 31%nat -> Forall (within_10s t0) ws ->
  attempts ws s =
    (replicate 30 true ++ [false], set_calls (clock_start <$> take 30 ws) s).
Proof.
  intros Hidle Hlen Hws.
  rewrite <- (take_drop 30 ws) at 1. rewrite attempts_app.
  assert (Htake : length (take 30 ws) = 30%nat) by (rewrite length_take; lia).
  assert (Hdrop : length (drop 30 ws) = 1%nat) by (rewrite length_drop; lia).
  rewrite (attempts_room t0);
    [ | by apply Forall_take | rewrite Hidle; constructor
      | rewrite Hidle, Htake; cbn; unfold MAX_CALLS_PER_MINUTE; lia ].
  rewrite Hidle, Htake. cbn [app].
  rewrite (attempts_full t0); cbn.
  - rewrite Hdrop. reflexivity.
  - by apply Forall_drop.
  - apply Forall_fmap. eapply Forall_impl; [apply Forall_take; exact Hws|].
    cbn. intros w (H1 & H2 & _). auto.
  - rewrite length_fmap. exact Htake.
Qed.

Lemma admitted_once_oldest_expires w s t1 rest :
  API_CALLS s = t1 :: rest ->
  (length (API_CALLS s) <= MAX_CALLS_PER_MINUTE)%nat ->
  expired (clock_limiter w) t1 ->
  limiter_admits w s.
Proof.
  intros Hcalls Hlen Hexp. unfold limiter_admits.
  rewrite Hcalls in *. rewrite prune_expired_head by exact Hexp.
  pose proof (prune_length (clock_limiter w) rest). cbn in Hlen. lia.
Qed.

(** C3. The gate of [getExchangeRate] ([canMakeApiCall] followed by the
    [push]) first removes from the front of [API_CALLS] the records older
    than [now - 60000] (all of them when the records are in increasing
    order, and nothing else); then, when fewer than thirty remain, it
    records the call and lets it through, and otherwise it throws without
    recording. Hence, on an idle limiter, thirty-one attempts whose clock
    readings all fall within ten seconds give thirty admissions followed by
    one denial, and an attempt made sixty-one seconds after the first
    admitted call is admitted. *)
Theorem rate_limiter_ceiling (t0 : Z) (ws : list Env) (s0 : State) :
  API_CALLS s0 = [] ->
  length ws = 31%nat ->
  Forall (within_10s t0) ws ->
  (forall w s,
     canMakeApiCall w s =
       (Fulfilled (bool_decide (limiter_admits w s)),
        set_calls (prune (clock_limiter w) (API_CALLS s)) s, [])) /\
  (forall w now s,
     admission w now s =
       if decide (length (prune (clock_limiter w) (API_CALLS s))
                  < MAX_CALLS_PER_MINUTE)%nat
       then (Fulfilled tt,
             set_calls (prune (clock_limiter w) (API_CALLS s) ++ [now]) s, [])
       else (Rejected RATE_LIMIT_ERROR,
             set_calls (prune (clock_limiter w) (API_CALLS s)) s, [])) /\
  (forall now calls,
     (exists dropped,
        calls = dropped ++ prune now calls /\
        Forall (fun t => t < now - 60000) dropped) /\
     (forall t, head (prune now calls) = Some t -> ~ t < now - 60000) /\
     (Sorted Z.le calls ->
        Forall (fun t => ~ t < now - 60000) (prune now calls))) /\
  fst (attempts ws s0) = replicate 30 true ++ [false] /\
  (forall w1 w' now,
     head ws = Some w1 ->
     clock_limiter w' = clock_start w1 + 61 * 1000 ->
     head (API_CALLS (snd (attempts ws s0))) = Some (clock_start w1) /\
     outcome_of (admission w' now) (snd (attempts ws s0)) = Fulfilled tt).
Proof.
  intros Hidle Hlen Hws.
  split; [reflexivity|]. split.
  { intros w now s. destruct (decide _) as [Ha|Hd].
    - by apply admission_admitted.
    - by apply admission_denied. }
  split.
  { intros now calls. split; [|split].
    - destruct (prune_split now calls) as (dropped & Heq & Hall).
      exists dropped. split; [exact Heq|].
      eapply Forall_impl; [exact Hall|]. cbn. unfold expired, ONE_MINUTE. lia.
    - intros t Ht. apply prune_head in Ht. unfold expired, ONE_MINUTE in Ht. lia.
    - intros Hs. eapply Forall_impl; [by apply prune_sorted|].
      cbn. unfold expired, ONE_MINUTE. lia. }
  rewrite (thirty_one_attempts t0 ws s0 Hidle Hlen Hws). cbn [fst snd].
  split; [reflexivity|].
  intros w1 w' now Hhead Hlater.
  destruct ws as [|w0 rest]; [discriminate|]. injection Hhead as ->.
  cbn. split; [reflexivity|].
  unfold outcome_of. rewrite admission_admitted; [reflexivity|].
  eapply admitted_once_oldest_expires.
  - cbn. reflexivity.
  - cbn. rewrite length_fmap, length_take. unfold MAX_CALLS_PER_MINUTE. lia.
  - unfold expired, ONE_MINUTE. lia.
Qed.

Lemma rate_limiter_ceiling_witness :
  fst (attempts (calm <$> seqZ 1000 31) (initial [])) = replicate 30 true ++ [false] /\
  outcome_of (admission (calm (1000 + 61 * 1000)) (1000 + 61 * 1000))
    (snd (attempts (calm <$> seqZ 1000 31) (initial []))) = Fulfilled tt.
Proof.
  pose proof (rate_limiter_ceiling 1000 (calm <$> seqZ 1000 31) (initial []))
    as H.
  destruct H as (_ & _ & _ & H4 & H5).
  - reflexivity.
  - reflexivity.
  - apply Forall_forall. intros w Hw.
    apply list_elem_of_fmap in Hw as (n & -> & Hn).
    apply elem_of_seqZ in Hn. unfold within_10s. cbn. lia.
  - split; [exact H4|].
    exact (proj2 (H5 (calm 1000) (calm (1000 + 61 * 1000)) (1000 + 61 * 1000)
                    eq_refl eq_refl)).
Defined.

(** ** C10: the limiter never holds more than thirty records *)

(** The records that are not expired all survive the pruning. *)
Lemma unexpired_survive now calls :
  (length (filter (fun t => ~ expired now t) calls)
   <= length (prune now calls))%nat.
Proof.
  destruct (prune_split now calls) as (dropped & Heq & Hall).
  rewrite Heq at 1. rewrite filter_app, length_app.
  assert (Hnone : filter (fun t => ~ expired now t) dropped = []).
  { clear Heq. induction Hall as [|t l Ht _ IH]; [reflexivity|].
    rewrite filter_cons_False by tauto. exact IH. }
  rewrite Hnone. cbn. apply length_filter.
Qed.

(** What one call does to [API_CALLS]. *)
Lemma getExchangeRate_calls w f t d s :
  let s' := state_after (getExchangeRate w f t d) s in
  API_CALLS s' = API_CALLS s \/
  (~ limiter_admits w s /\
   outcome_of (getExchangeRate w f t d) s = Rejected RATE_LIMIT_ERROR /\
   API_CALLS s' = prune (clock_limiter w) (API_CALLS s)) \/
  (limiter_admits w s /\
   API_CALLS s' = prune (clock_limiter w) (API_CALLS s) ++ [clock_start w]).
Proof.
  unfold state_after, outcome_of. cbv zeta.
  pose proof (getExchangeRate_path w f t d s) as P.
  inversion P; subst; cbn; auto.
Qed.

Lemma convertAmount_state w a f t d s :
  state_after (convertAmount w a f t d) s
  = state_after (getExchangeRate w f t d) s.
Proof.
  unfold state_after. rewrite convertAmount_eq.
  destruct (getExchangeRate w f t d s) as [[[r|e] s'] tr]; reflexivity.
Qed.

Lemma serve_keeps_bound q s :
  (length (API_CALLS s) <= MAX_CALLS_PER_MINUTE)%nat ->
  (length (API_CALLS (state_after (serve q) s)) <= MAX_CALLS_PER_MINUTE)%nat.
Proof.
  intros Hlen.
  assert (Hget : forall w f t d,
    (length (API_CALLS (state_after (getExchangeRate w f t d) s))
     <= MAX_CALLS_PER_MINUTE)%nat).
  { intros w f t d.
    destruct (getExchangeRate_calls w f t d s) as [-> | [(_ & _ & ->) | (Ha & ->)]].
    - exact Hlen.
    - pose proof (prune_length (clock_limiter w) (API_CALLS s)). lia.
    - unfold limiter_admits in Ha. rewrite length_app. cbn. lia. }
  destruct q as [w f t d | w a f t d]; cbn [serve].
  - apply Hget.
  - rewrite convertAmount_state. apply Hget.
Qed.

Lemma run_keeps_bound qs : forall s,
  (length (API_CALLS s) <= MAX_CALLS_PER_MINUTE)%nat ->
  (length (API_CALLS (run qs s)) <= MAX_CALLS_PER_MINUTE)%nat.
Proof.
  unfold run. induction qs as [|q rest IH]; intros s Hlen; cbn; [exact Hlen|].
  apply IH. by apply serve_keeps_bound.
Qed.

(** C10. Whatever requests are served, one after the other, from a freshly
    loaded module, and whatever the outside world answers, [API_CALLS] never
    holds more than thirty records. A call leaves [API_CALLS] alone, or is
    denied and leaves it pruned of a front segment of expired records with
    nothing added, or is admitted and adds its own start time to a pruned
    list of fewer than thirty records, in which all the unexpired records
    are. *)
Theorem limiter_bound_invariant (qs : list Request) (table : list Row) :
  (length (API_CALLS (run qs (initial table))) <= 30)%nat /\
  (forall w f t d s,
     let s' := state_after (getExchangeRate w f t d) s in
     let kept := prune (clock_limiter w) (API_CALLS s) in
     API_CALLS s' = API_CALLS s \/
     (outcome_of (getExchangeRate w f t d) s = Rejected RATE_LIMIT_ERROR /\
      API_CALLS s' = kept) \/
     ((length kept < 30)%nat /\
      (length (filter (fun u => ~ expired (clock_limiter w) u) (API_CALLS s))
       < 30)%nat /\
      API_CALLS s' = kept ++ [clock_start w])) /\
  (forall now calls,
     exists dropped,
       calls = dropped ++ prune now calls /\ Forall (expired now) dropped).
Proof.
  split; [|split].
  - apply (run_keeps_bound qs (initial table)). cbn. lia.
  - intros w f t d s. cbv zeta.
    destruct (getExchangeRate_calls w f t d s)
      as [H | [(_ & Hrej & H) | (Ha & H)]]; [auto | auto |].
    right. right. unfold limiter_admits, MAX_CALLS_PER_MINUTE in Ha.
    split; [exact Ha|]. split; [|exact H].
    pose proof (unexpired_survive (clock_limiter w) (API_CALLS s)). lia.
  - apply prune_split.
Qed.

(** ** C1: the end-to-end scenario *)

(** C1. Start from an empty table, an idle limiter and an empty cache, with
    a provider that answers the request for base USD with result "success"
    and a [conversion_rates] object in which SAR is 3.75, and a database
    that accepts the write. Then [convertAmount(200, USD, SAR, 2024-06-01)]
    is fulfilled with 750; its effects are one select, one request and one
    upsert, which leaves in the table the single row
    (USD, SAR, 2024-06-01, 3.75, time of the write); the cache holds 3.75
    for the key; and the same call made again less than six hours later is
    fulfilled with 750 without any effect, so without a request. *)
Theorem end_to_end_conversion (w w2 : Env) (et : string)
    (rates : gmap string float) :
  fetch_outcome w =
    inr {| result := "success"; error_type := et;
           conversion_rates := Some rates |} ->
  rates !! "SAR" = Some 3.75%float ->
  upsert_error w = None ->
  clock_start w2 - clock_start w < CACHE_EXPIRATION ->
  let first := convertAmount w 200 USD SAR "2024-06-01" in
  let s1 := state_after first (initial []) in
  outcome_of first (initial []) = Fulfilled 750%float /\
  effects_of first (initial []) =
    [DbSelect USD SAR "2024-06-01";
     HttpGet "https://v6.exchangerate-api.com/v6/f9a58f72ab3a0f83d914574b/latest/USD";
     DbUpsert {| from_currency := USD; to_currency := SAR;
                 date := "2024-06-01"; row_rate := 3.75;
                 updated_at := clock_upsert w |}] /\
  exchange_rates s1 =
    [{| from_currency := USD; to_currency := SAR; date := "2024-06-01";
        row_rate := 3.75; updated_at := clock_upsert w |}] /\
  cache_get (exchangeRatesCache s1) "2024-06-01" USD SAR
    = Some {| rate := 3.75; timestamp := clock_start w |} /\
  API_CALLS s1 = [clock_start w] /\
  convertAmount w2 200 USD SAR "2024-06-01" s1 = (Fulfilled 750%float, s1, []).
Proof.
  intros Hfetch Hsar Hup Hsoon. cbv zeta.
  assert (Hne : USD <> SAR) by discriminate.
  assert (Hrate : provider_rate w SAR = Some 3.75%float).
  { unfold provider_rate. rewrite Hfetch. cbn. rewrite Hsar. reflexivity. }
  assert (Hstore : store_fresh w (initial []) USD SAR "2024-06-01" = None).
  { unfold store_fresh. destruct (select_fails w); reflexivity. }
  assert (Hadm : limiter_admits w (initial [])).
  { unfold limiter_admits, MAX_CALLS_PER_MINUTE. cbn. lia. }
  unfold outcome_of, effects_of, state_after.
  rewrite !convertAmount_eq.
  rewrite (getExchangeRate_fetched w USD SAR "2024-06-01" (initial [])
             Hne eq_refl Hstore Hadm 3.75 Hrate Hup).
  cbn [fst snd exchangeRatesCache API_CALLS exchange_rates initial prune app
       upsert].
  rewrite cache_get_put.
  repeat (split; [reflexivity|]).
  rewrite (getExchangeRate_hit w2 USD SAR "2024-06-01" _ 3.75 Hne);
    [reflexivity|].
  cbn [exchangeRatesCache]. by apply cache_hit_put.
Qed.

Lemma end_to_end_conversion_witness :
  outcome_of (convertAmount (calm 1000) 200 USD SAR "2024-06-01") (initial [])
    = Fulfilled 750%float /\
  effects_of (convertAmount (calm (1000 + 3600 * 1000)) 200 USD SAR "2024-06-01")
    (state_after (convertAmount (calm 1000) 200 USD SAR "2024-06-01") (initial []))
    = [].
Proof.
  pose proof (end_to_end_conversion (calm 1000) (calm (1000 + 3600 * 1000)) ""
                {[ "SAR" := 3.75%float ]}) as H.
  destruct H as (H1 & _ & _ & _ & _ & H6).
  - reflexivity.
  - reflexivity.
  - reflexivity.
  - reflexivity.
  - split; [exact H1|]. unfold effects_of. rewrite H6. reflexivity.
Defined.

(** * Further properties of the code *)

(** ** The cache across calls *)

Lemma getExchangeRate_cache_frame w f t d s d' f' t' :
  (d', f', t') <> (d, f, t) ->
  cache_get (exchangeRatesCache (state_after (getExchangeRate w f t d) s)) d' f' t'
  = cache_get (exchangeRatesCache s) d' f' t'.
Proof.
  intros Hne. unfold state_after.
  pose proof (getExchangeRate_path w f t d s) as P.
  inversion P; subst; cbn; try reflexivity; by apply cache_get_put_other.
Qed.

(** X1. A call for one key leaves the cache entry of every other key (another
    date, another source or another target currency) exactly as it was,
    whether the call is [getExchangeRate] or [convertAmount] and however it
    ends. *)
Theorem other_cache_entries_untouched (w : Env) (a : float) (f t : Currency)
    (d : string) (s : State) (d' : string) (f' t' : Currency) :
  (d', f', t') <> (d, f, t) ->
  cache_get (exchangeRatesCache (state_after (getExchangeRate w f t d) s)) d' f' t'
    = cache_get (exchangeRatesCache s) d' f' t' /\
  cache_get (exchangeRatesCache (state_after (convertAmount w a f t d) s)) d' f' t'
    = cache_get (exchangeRatesCache s) d' f' t'.
Proof.
  intros Hne. rewrite convertAmount_state.
  split; by apply getExchangeRate_cache_frame.
Qed.

Lemma other_cache_entries_untouched_witness :
  cache_get
    (exchangeRatesCache
       (state_after (getExchangeRate (calm 9000) USD EGP day)
          (state_after (getExchangeRate (calm 1000) USD SAR day) (initial []))))
    day USD SAR
  = cache_get
      (exchangeRatesCache
         (state_after (getExchangeRate (calm 1000) USD SAR day) (initial [])))
      day USD SAR.
Proof.
  refine (proj1 (other_cache_entries_untouched (calm 9000) 1 USD EGP day _
                   day USD SAR _)).
  discriminate.
Defined.

Lemma cache_entry_survives_call w f t d s d' f' t' :
  is_Some (cache_get (exchangeRatesCache s) d' f' t') ->
  is_Some (cache_get
             (exchangeRatesCache (state_after (getExchangeRate w f t d) s))
             d' f' t').
Proof.
  intros Hsome.
  destruct (decide ((d', f', t') = (d, f, t))) as [[= -> -> ->]|Hne].
  - unfold state_after. pose proof (getExchangeRate_path w f t d s) as P.
    inversion P; subst; cbn; try exact Hsome; rewrite cache_get_put; eauto.
  - by rewrite getExchangeRate_cache_frame.
Qed.

Lemma serve_state q s :
  state_after (serve q) s =
    match q with
    | GetRate w f t d => state_after (getExchangeRate w f t d) s
    | Convert w _ f t d => state_after (getExchangeRate w f t d) s
    end.
Proof. destruct q; cbn [serve]; [reflexivity | apply convertAmount_state]. Qed.

(** X2. Cache entries are never removed: a key that has an entry keeps one
    through any sequence of requests (the entry may be replaced by a newer
    one for the same key, it is never deleted, not even when it has
    expired). *)
Theorem cache_entries_are_never_removed (qs : list Request) (s : State)
    (d : string) (f t : Currency) :
  is_Some (cache_get (exchangeRatesCache s) d f t) ->
  is_Some (cache_get (exchangeRatesCache (run qs s)) d f t).
Proof.
  unfold run. revert s.
  induction qs as [|q rest IH]; intros s Hsome; cbn; [exact Hsome|].
  apply IH. rewrite serve_state.
  destruct q; by apply cache_entry_survives_call.
Qed.

Lemma cache_entries_are_never_removed_witness :
  is_Some
    (cache_get
       (exchangeRatesCache
          (run [GetRate (calm 90000000) USD SAR day;
                Convert (calm 90000001) 5 EGP USD day]
             (state_after (getExchangeRate (calm 1000) USD SAR day) (initial []))))
       day USD SAR).
Proof.
  apply cache_entries_are_never_removed.
  vm_compute. eauto.
Defined.

(** ** What a failed call leaves behind *)

(** X3. A call that is rejected, for whatever reason, changes neither the
    cache nor the table: no entry is written and no row is stored for a rate
    that was not obtained. Only the limiter may have changed. *)
Theorem failed_call_writes_nothing (w : Env) (a : float) (f t : Currency)
    (d : string) (s : State) (e : Thrown) :
  outcome_of (getExchangeRate w f t d) s = Rejected e ->
  exchangeRatesCache (state_after (getExchangeRate w f t d) s)
    = exchangeRatesCache s /\
  exchange_rates (state_after (getExchangeRate w f t d) s) = exchange_rates s /\
  exchangeRatesCache (state_after (convertAmount w a f t d) s)
    = exchangeRatesCache s /\
  exchange_rates (state_after (convertAmount w a f t d) s) = exchange_rates s.
Proof.
  rewrite convertAmount_state. unfold outcome_of, state_after.
  pose proof (getExchangeRate_path w f t d s) as P.
  inversion P; subst; cbn; try discriminate; auto.
Qed.

Lemma failed_call_writes_nothing_witness :
  exchangeRatesCache
    (state_after (getExchangeRate (calm 21601000) USD SAR day)
       (saturated 21600500 [usd_sar_row 3.75 0]))
  = exchangeRatesCache (saturated 21600500 [usd_sar_row 3.75 0]).
Proof.
  refine (proj1 (failed_call_writes_nothing (calm 21601000) 1 USD SAR day
                   (saturated 21600500 [usd_sar_row 3.75 0]) RATE_LIMIT_ERROR _)).
  vm_compute. reflexivity.
Defined.

(** ** Requests to the provider and the limiter *)

(** X4. Every request sent to the provider is counted by the limiter, also
    when the request then fails: a call whose effects include a request has
    recorded its start time after the records that survived the pruning. A
    call that sends no request records nothing: what it leaves in
    [API_CALLS] is what was there, less a front segment at most. *)
Theorem requests_and_records_go_together (w : Env) (f t : Currency)
    (d : string) (s : State) :
  let s' := state_after (getExchangeRate w f t d) s in
  let sent := Exists is_request (effects_of (getExchangeRate w f t d) s) in
  (sent ->
     limiter_admits w s /\
     API_CALLS s' = prune (clock_limiter w) (API_CALLS s) ++ [clock_start w]) /\
  (~ sent ->
     exists dropped, API_CALLS s = dropped ++ API_CALLS s').
Proof.
  unfold state_after, effects_of. cbv zeta.
  pose proof (getExchangeRate_path w f t d s) as P.
  inversion P; subst; cbn [fst snd API_CALLS set_cache set_calls]; split;
    try (intros Hsent; exfalso;
         repeat (apply Exists_cons in Hsent as [Hsent|Hsent];
                 [exact Hsent|]);
         by apply Exists_nil in Hsent);
    try (intros _; by exists []);
    try (intros _; destruct (prune_split (clock_limiter w) (API_CALLS s))
           as (dropped & Heq & _); by exists dropped);
    try (intros _; split; [assumption | reflexivity]);
    try (intros Hno; exfalso; apply Hno;
         apply Exists_cons_tl, Exists_cons_hd; exact I).
Qed.

Lemma requests_and_records_go_together_witness :
  API_CALLS
    (state_after
       (getExchangeRate (answering 1000 (error_reply "quota-reached" None))
          USD SAR day) (initial []))
  = [1000].
Proof.
  pose proof (requests_and_records_go_together
                (answering 1000 (error_reply "quota-reached" None))
                USD SAR day (initial [])) as [H _].
  destruct H as [_ H].
  - vm_compute. apply Exists_cons_tl, Exists_cons_hd. exact I.
  - exact H.
Defined.


(** ** The table: one write, then a read *)

Lemma upsert_filter_same n new table :
  unique_keys table ->
  filter (fun r => has_key (from_currency new) (to_currency new) (date new) r = true)
    (upsert n new table)
  = [stored_row n new table].
Proof.
  unfold unique_keys, stored_row. induction table as [|x rest IH]; intros Hnd.
  - cbn [upsert]. rewrite filter_cons_True by (by apply has_key_spec).
    rewrite bool_decide_eq_false_2 by apply not_elem_of_nil. reflexivity.
  - rewrite fmap_cons in Hnd. apply NoDup_cons in Hnd as [Hx Hrest].
    cbn [upsert]. destruct (same_key x new) eqn:Hk.
    + rewrite same_key_has_key, has_key_spec in Hk.
      rewrite filter_cons_True by (by apply has_key_spec).
      rewrite bool_decide_eq_true_2
        by (rewrite fmap_cons; apply elem_of_cons; left; symmetry; exact Hk).
      f_equal. apply filter_absent. rewrite <- Hk. exact Hx.
    + assert (Hne : key_of x <> key_of new).
      { intros Heq. rewrite same_key_true in Hk by exact Heq. discriminate. }
      rewrite filter_cons_False by (rewrite has_key_spec; exact Hne).
      rewrite IH by exact Hrest. f_equal.
      destruct (decide (key_of new ∈ key_of <$> rest)) as [Hin|Hout].
      * rewrite !bool_decide_eq_true_2; [reflexivity | | exact Hin].
        rewrite fmap_cons. apply elem_of_cons. by right.
      * rewrite !bool_decide_eq_false_2; [reflexivity | | exact Hout].
        rewrite fmap_cons, elem_of_cons. intros [Heq|Hin]; [|contradiction].
        apply Hne. symmetry. exact Heq.
Qed.

Lemma upsert_filter_other n new table f t d :
  (f, t, d) <> key_of new ->
  filter (fun r => has_key f t d r = true) (upsert n new table)
  = filter (fun r => has_key f t d r = true) table.
Proof.
  intros Hne. induction table as [|x rest IH]; cbn [upsert].
  - rewrite filter_cons_False; [reflexivity|].
    rewrite has_key_spec. congruence.
  - destruct (same_key x new) eqn:Hk.
    + rewrite same_key_has_key, has_key_spec in Hk.
      rewrite !filter_cons_False; [reflexivity | |];
        rewrite has_key_spec; unfold key_of in *; cbn; congruence.
    + destruct (decide (has_key f t d x = true)) as [Hx|Hx].
      * rewrite !filter_cons_True by exact Hx. by rewrite IH.
      * rewrite !filter_cons_False by exact Hx. exact IH.
Qed.

(** X6. Write then read. On a table that satisfies the uniqueness
    constraint, the select that follows an upsert for the same key finds
    exactly one row, which carries the rate that was written. Its
    [updated_at] is the value the client sent when the key was new, and the
    database clock when the key existed (the update trigger). *)
Theorem select_after_upsert (n : Z) (new : Row) (table : list Row) :
  unique_keys table ->
  select_single (upsert n new table)
    (from_currency new) (to_currency new) (date new)
  = Some (stored_row n new table) /\
  row_rate (stored_row n new table) = row_rate new /\
  (key_of new ∉ key_of <$> table -> stored_row n new table = new) /\
  (key_of new ∈ key_of <$> table -> updated_at (stored_row n new table) = n).
Proof.
  intros Hu. split; [|split; [|split]].
  - unfold select_single. rewrite upsert_filter_same by exact Hu. reflexivity.
  - unfold stored_row. destruct (bool_decide _); reflexivity.
  - intros Hout. unfold stored_row.
    rewrite bool_decide_eq_false_2 by exact Hout. reflexivity.
  - intros Hin. unfold stored_row.
    rewrite bool_decide_eq_true_2 by exact Hin. reflexivity.
Qed.

Lemma select_after_upsert_witness :
  select_single (upsert 2004 (usd_egp_row 48.25 2000) [usd_egp_row 47.5 1000])
    USD EGP "2024-05-01"
  = Some (usd_egp_row 48.25 2004).
Proof.
  refine (proj1 (select_after_upsert 2004 (usd_egp_row 48.25 2000)
                   [usd_egp_row 47.5 1000] _)).
  unfold unique_keys. cbn. apply NoDup_singleton.
Defined.

(** X7. An upsert for one key changes nothing for the others: a select for
    any other currency pair or date answers after the write as it answered
    before. *)
Theorem upsert_leaves_other_keys (n : Z) (new : Row) (table : list Row)
    (f t : Currency) (d : string) :
  (f, t, d) <> key_of new ->
  select_single (upsert n new table) f t d = select_single table f t d.
Proof.
  intros Hne. unfold select_single.
  rewrite upsert_filter_other by exact Hne. reflexivity.
Qed.

Lemma upsert_leaves_other_keys_witness :
  select_single (upsert 2004 (usd_egp_row 48.25 2000) [usd_sar_row 3.75 500])
    USD SAR day
  = select_single [usd_sar_row 3.75 500] USD SAR day.
Proof.
  apply upsert_leaves_other_keys. discriminate.
Defined.

(** ** The store as the durable tier *)

Lemma cache_hit_empty d f t now : cache_hit ∅ d f t now = None.
Proof. unfold cache_hit, cache_get. rewrite lookup_empty. reflexivity. Qed.

(** X8. What one process fetched, the next one finds in the store. After a
    call that obtained the rate [r] from the provider and stored it, a
    freshly loaded module (empty cache, idle limiter) that asks for the same
    key less than six hours after the write is served from the store: it
    returns [r], its only effect is the select, and it sends no request. *)
Theorem stored_rate_survives_restart (w w2 : Env) (f t : Currency)
    (d : string) (s : State) (r : float) :
  unique_keys (exchange_rates s) ->
  f <> t ->
  cache_hit (exchangeRatesCache s) d f t (clock_start w) = None ->
  store_fresh w s f t d = None ->
  limiter_admits w s ->
  provider_rate w t = Some r ->
  upsert_error w = None ->
  select_fails w2 = false ->
  clock_start w2 - clock_upsert w < CACHE_EXPIRATION ->
  clock_start w2 - db_clock w < CACHE_EXPIRATION ->
  let table' := exchange_rates (state_after (getExchangeRate w f t d) s) in
  outcome_of (getExchangeRate w2 f t d) (initial table') = Fulfilled r /\
  effects_of (getExchangeRate w2 f t d) (initial table') = [DbSelect f t d] /\
  API_CALLS (state_after (getExchangeRate w2 f t d) (initial table')) = [].
Proof.
  intros Hu Hne Hmiss Hstore Hadm Hrate Hup Hsel Hfresh1 Hfresh2. cbv zeta.
  assert (Ht : exchange_rates (state_after (getExchangeRate w f t d) s)
               = upsert (db_clock w) (sent_row w f t d r) (exchange_rates s)).
  { unfold state_after.
    rewrite (getExchangeRate_fetched w f t d s Hne Hmiss Hstore Hadm r Hrate Hup).
    reflexivity. }
  rewrite Ht. clear Ht.
  pose proof (upsert_filter_same (db_clock w) (sent_row w f t d r)
                (exchange_rates s) Hu) as Hf.
  cbn [sent_row from_currency to_currency date] in Hf.
  set (table' := upsert (db_clock w) (sent_row w f t d r) (exchange_rates s))
    in *.
  assert (Hs : store_fresh w2 (initial table') f t d
               = Some (stored_row (db_clock w) (sent_row w f t d r)
                         (exchange_rates s))).
  { unfold store_fresh. rewrite Hsel. cbn [exchange_rates initial].
    unfold select_single. rewrite Hf.
    unfold stored_row.
    destruct (bool_decide _); cbn [updated_at sent_row].
    - destruct (Z.ltb_spec (clock_start w2 - db_clock w) CACHE_EXPIRATION);
        [reflexivity | lia].
    - destruct (Z.ltb_spec (clock_start w2 - clock_upsert w) CACHE_EXPIRATION);
        [reflexivity | lia]. }
  unfold outcome_of, effects_of, state_after.
  rewrite (getExchangeRate_store_hit w2 f t d (initial table') Hne
             (cache_hit_empty _ _ _ _) _ Hs).
  cbn [fst snd]. split; [|split; reflexivity].
  f_equal. unfold stored_row. destruct (bool_decide _); reflexivity.
Qed.

Lemma stored_rate_survives_restart_witness :
  outcome_of (getExchangeRate (calm 7000) USD SAR day)
    (initial (exchange_rates
                (state_after (getExchangeRate (calm 1000) USD SAR day)
                   (initial []))))
  = Fulfilled 3.75%float.
Proof.
  refine (proj1 (stored_rate_survives_restart (calm 1000) (calm 7000) USD SAR
                   day (initial []) 3.75 _ _ _ _ _ _ _ _ _ _)).
  - apply NoDup_nil_2.
  - discriminate.
  - reflexivity.
  - reflexivity.
  - unfold limiter_admits, MAX_CALLS_PER_MINUTE. cbn. lia.
  - reflexivity.
  - reflexivity.
  - reflexivity.
  - reflexivity.
  - reflexivity.
Defined.

(** ** Repeating a conversion *)

Lemma repeated_rate w w2 f t d s r s1 tr :
  rates_nonzero s ->
  clock_start w2 = clock_start w ->
  getExchangeRate w f t d s = (Fulfilled r, s1, tr) ->
  getExchangeRate w2 f t d s1 = (Fulfilled r, s1, []).
Proof.
  intros [Hcache Htable] Hclock Hfirst.
  pose proof (getExchangeRate_path w f t d s) as P. rewrite Hfirst in P.
  inversion P as [ Heq | r0 Hne Hhit | row Hne Hmiss Hrow | | | r0 Hne Hmiss Hst Hadm Hr Hup
                 | r0 err Hne Hmiss Hst Hadm Hr Hup ]; subst.
  - apply getExchangeRate_same.
  - apply getExchangeRate_hit; [exact Hne|]. rewrite Hclock. exact Hhit.
  - apply getExchangeRate_hit; [exact Hne|]. cbn [exchangeRatesCache set_cache].
    apply cache_hit_put; [|rewrite Hclock; unfold CACHE_EXPIRATION; lia].
    apply store_fresh_in in Hrow.
    by apply (proj1 (Forall_forall _ _) Htable).
  - apply getExchangeRate_hit; [exact Hne|]. cbn [exchangeRatesCache].
    apply cache_hit_put; [|rewrite Hclock; unfold CACHE_EXPIRATION; lia].
    by eapply provider_rate_nonzero.
  - apply getExchangeRate_hit; [exact Hne|]. cbn [exchangeRatesCache].
    apply cache_hit_put; [|rewrite Hclock; unfold CACHE_EXPIRATION; lia].
    by eapply provider_rate_nonzero.
Qed.

(** X9. Conversion is repeatable. When the rates held in the cache and the
    table are numbers other than zero and a conversion has succeeded, the
    same conversion asked again at the same clock reading returns the very
    same amount, performs no effect (the rate now comes from the in-memory
    cache) and changes nothing. *)
Theorem repeated_conversion_is_identical (w w2 : Env) (a : float)
    (f t : Currency) (d : string) (s : State) (v : float) :
  rates_nonzero s ->
  clock_start w2 = clock_start w ->
  outcome_of (convertAmount w a f t d) s = Fulfilled v ->
  convertAmount w2 a f t d (state_after (convertAmount w a f t d) s)
  = (Fulfilled v, state_after (convertAmount w a f t d) s, []).
Proof.
  intros Hinv Hclock. unfold outcome_of, state_after.
  rewrite !convertAmount_eq.
  destruct (getExchangeRate w f t d s) as [[[r|e] s1] tr] eqn:Hfirst;
    cbn [fst snd]; [|discriminate].
  intros [= <-].
  rewrite (repeated_rate w w2 f t d s r s1 tr Hinv Hclock Hfirst).
  reflexivity.
Qed.

Lemma repeated_conversion_is_identical_witness :
  convertAmount (calm 1000) 100 USD SAR day
    (state_after (convertAmount (calm 1000) 100 USD SAR day) (initial []))
  = (Fulfilled 375%float,
     state_after (convertAmount (calm 1000) 100 USD SAR day) (initial []), []).
Proof.
  apply (repeated_conversion_is_identical (calm 1000) (calm 1000) 100 USD SAR
           day (initial []) 375).
  - split; [|constructor]. intros d f t e. cbn [exchangeRatesCache initial].
    unfold cache_get. rewrite lookup_empty. discriminate.
  - reflexivity.
  - vm_compute. reflexivity.
Defined.

(** ** More on the limiter *)

Lemma prune_all_expired now calls :
  Forall (expired now) calls -> prune now calls = [].
Proof.
  induction 1 as [|t rest Ht _ IH]; [reflexivity|].
  rewrite prune_expired_head by exact Ht. exact IH.
Qed.

(** X10. The limiter reopens after a quiet minute. When every recorded call
    is more than sixty seconds old at the time of the check, the call is
    admitted whatever the number of records, the old records are all
    dropped, and a call that goes to the provider leaves its own start time
    as the only record. *)
Theorem limiter_reopens_after_a_quiet_minute (w : Env) (f t : Currency)
    (d : string) (s : State) :
  Forall (expired (clock_limiter w)) (API_CALLS s) ->
  limiter_admits w s /\
  (forall now,
     admission w now s = (Fulfilled tt, set_calls [now] s, [])) /\
  (f <> t ->
   cache_hit (exchangeRatesCache s) d f t (clock_start w) = None ->
   store_fresh w s f t d = None ->
   API_CALLS (state_after (getExchangeRate w f t d) s) = [clock_start w] /\
   Exists is_request (effects_of (getExchangeRate w f t d) s)).
Proof.
  intros Hold. pose proof (prune_all_expired _ _ Hold) as Hp.
  assert (Hadm : limiter_admits w s).
  { unfold limiter_admits, MAX_CALLS_PER_MINUTE. rewrite Hp. cbn. lia. }
  split; [exact Hadm|]. split.
  - intros now. rewrite admission_admitted by exact Hadm. rewrite Hp.
    reflexivity.
  - intros Hne Hmiss Hstore. unfold state_after, effects_of.
    pose proof (getExchangeRate_path w f t d s) as P.
    inversion P; subst; try congruence; try contradiction;
      cbn [fst snd API_CALLS set_calls]; rewrite Hp;
      (split; [reflexivity|]);
      apply Exists_cons_tl, Exists_cons_hd; exact I.
Qed.

Lemma limiter_reopens_after_a_quiet_minute_witness :
  API_CALLS
    (state_after (getExchangeRate (calm 70000) USD SAR day) (saturated 5000 []))
  = [70000].
Proof.
  pose proof (limiter_reopens_after_a_quiet_minute (calm 70000) USD SAR day
                (saturated 5000 [])) as (_ & _ & H).
  - apply Forall_forall. intros x Hx.
    apply elem_of_replicate in Hx as [-> _]. unfold expired, ONE_MINUTE.
    cbn. lia.
  - refine (proj1 (H _ _ _)); [discriminate | reflexivity | reflexivity].
Defined.

Lemma prune_prune now now' calls :
  now <= now' -> prune now' (prune now calls) = prune now' calls.
Proof.
  intros Hle. induction calls as [|t rest IH]; [reflexivity|].
  destruct (decide (expired now t)) as [Hold|Hyoung].
  - rewrite (prune_expired_head now) by exact Hold.
    rewrite (prune_expired_head now') by (unfold expired in *; lia).
    exact IH.
  - rewrite (prune_fresh_head now) by exact Hyoung. reflexivity.
Qed.

(** X11. A denied call leaves no trace on the calls that follow. After a
    call that the limiter denied, any later call (its limiter check not
    earlier than the denied one) has the outcome and the effects it would
    have had if the denied call had never been made. *)
Theorem denied_call_leaves_no_trace (w1 w2 : Env) (f1 t1 f2 t2 : Currency)
    (d1 d2 : string) (s : State) :
  outcome_of (getExchangeRate w1 f1 t1 d1) s = Rejected RATE_LIMIT_ERROR ->
  fetch_outcome w1 <> inl RATE_LIMIT_ERROR ->
  clock_limiter w1 <= clock_limiter w2 ->
  let s1 := state_after (getExchangeRate w1 f1 t1 d1) s in
  outcome_of (getExchangeRate w2 f2 t2 d2) s1
    = outcome_of (getExchangeRate w2 f2 t2 d2) s /\
  effects_of (getExchangeRate w2 f2 t2 d2) s1
    = effects_of (getExchangeRate w2 f2 t2 d2) s /\
  s1 = set_calls (prune (clock_limiter w1) (API_CALLS s)) s.
Proof.
  intros Hrej Hw Hle. cbv zeta.
  assert (Hs1 : state_after (getExchangeRate w1 f1 t1 d1) s
                = set_calls (prune (clock_limiter w1) (API_CALLS s)) s).
  { unfold outcome_of in Hrej. unfold state_after.
    pose proof (getExchangeRate_path w1 f1 t1 d1 s) as P.
    inversion P as [ | | | | Hne Hmiss Hst Hadm Hr Heq | | ]; subst;
      match goal with H : _ = getExchangeRate _ _ _ _ _ |- _ =>
        rewrite <- H in Hrej; cbn in Hrej; cbn
      end; try discriminate.
    - reflexivity.
    - exfalso. injection Hrej as Hrej.
      by apply (rethrown_provider_failure_not_rate_limit w1 t1 Hw). }
  rewrite Hs1. split; [|split; [|reflexivity]].
  all: set (s1 := set_calls (prune (clock_limiter w1) (API_CALLS s)) s).
  all: assert (Hadm : limiter_admits w2 s1 <-> limiter_admits w2 s)
         by (unfold limiter_admits, s1; cbn [API_CALLS set_calls];
             by rewrite prune_prune).
  all: unfold outcome_of, effects_of.
  all: pose proof (getExchangeRate_path w2 f2 t2 d2 s) as P.
  all: inversion P as [ Heq | r Hne Hhit | row Hne Hmiss Hrow
                      | Hne Hmiss Hst Hden | Hne Hmiss Hst Ha Hr
                      | r Hne Hmiss Hst Ha Hr Hup
                      | r err Hne Hmiss Hst Ha Hr Hup ]; subst; cbn [fst snd].
  all: try (rewrite getExchangeRate_same; reflexivity).
  all: try (rewrite (getExchangeRate_hit w2 f2 t2 d2 s1 r Hne Hhit);
            reflexivity).
  all: try (rewrite (getExchangeRate_store_hit w2 f2 t2 d2 s1 Hne Hmiss row Hrow);
            reflexivity).
  all: try (rewrite (getExchangeRate_denied w2 f2 t2 d2 s1 Hne Hmiss Hst)
              by (rewrite Hadm; exact Hden); reflexivity).
  all: try (rewrite (getExchangeRate_provider_fails w2 f2 t2 d2 s1 Hne Hmiss Hst
                       (proj2 Hadm Ha) Hr); reflexivity).
  all: try (rewrite (getExchangeRate_fetched w2 f2 t2 d2 s1 Hne Hmiss Hst
                       (proj2 Hadm Ha) r Hr Hup); reflexivity).
  all: try (rewrite (getExchangeRate_fetched_unsaved w2 f2 t2 d2 s1 Hne Hmiss Hst
                       (proj2 Hadm Ha) r err Hr Hup); reflexivity).
Qed.

Lemma denied_call_leaves_no_trace_witness :
  outcome_of (getExchangeRate (calm 21700000) USD EGP day)
    (state_after (getExchangeRate (calm 21601000) USD SAR day)
       (saturated 21600500 []))
  = outcome_of (getExchangeRate (calm 21700000) USD EGP day)
      (saturated 21600500 []).
Proof.
  refine (proj1 (denied_call_leaves_no_trace (calm 21601000) (calm 21700000)
                   USD SAR USD EGP day day (saturated 21600500 []) _ _ _)).
  - vm_compute. reflexivity.
  - discriminate.
  - cbn. lia.
Defined.

Lemma starts_sorted_step (calls calls' : list Z) (start : Z) (rest : list Z) :
  StronglySorted Z.le (calls ++ start :: rest) ->
  calls' = calls \/
  (exists dropped kept,
     calls = dropped ++ kept /\ (calls' = kept \/ calls' = kept ++ [start])) ->
  StronglySorted Z.le (calls' ++ rest).
Proof.
  intros Hs Hcases.
  apply StronglySorted_app in Hs as (Hle & Hcalls & Hrest).
  apply StronglySorted_cons in Hrest as [Hstart Hrest].
  assert (Hin : forall x y, x ∈ calls -> y ∈ rest -> x <= y).
  { intros x y Hx Hy. apply Hle; [exact Hx|]. apply elem_of_cons. by right. }
  destruct Hcases as [-> | (dropped & kept & -> & [-> | ->])].
  - by apply StronglySorted_app_2.
  - apply StronglySorted_app_2.
    + intros x y Hx Hy. apply Hin; [|exact Hy]. apply elem_of_app. by right.
    + by eapply StronglySorted_app_1_r.
    + exact Hrest.
  - rewrite <- app_assoc. cbn. apply StronglySorted_app_2.
    + intros x y Hx Hy. apply Hle. apply elem_of_app. by right. exact Hy.
    + by eapply StronglySorted_app_1_r.
    + by apply StronglySorted_cons.
Qed.

Lemma run_sorted qs : forall s,
  StronglySorted Z.le (API_CALLS s ++ ((clock_start ∘ env_of) <$> qs)) ->
  StronglySorted Z.le (API_CALLS (run qs s)).
Proof.
  unfold run. induction qs as [|q rest IH]; intros s Hs.
  - cbn in *. by rewrite app_nil_r in Hs.
  - cbn [foldl]. apply IH. rewrite fmap_cons in Hs.
    eapply starts_sorted_step; [exact Hs|].
    rewrite serve_state.
    assert (H : forall w f t d,
      API_CALLS (state_after (getExchangeRate w f t d) s) = API_CALLS s \/
      exists dropped kept,
        API_CALLS s = dropped ++ kept /\
        (API_CALLS (state_after (getExchangeRate w f t d) s) = kept \/
         API_CALLS (state_after (getExchangeRate w f t d) s)
         = kept ++ [clock_start w])).
    { intros w f t d.
      destruct (prune_split (clock_limiter w) (API_CALLS s))
        as (dropped & Heq & _).
      destruct (getExchangeRate_calls w f t d s)
        as [H | [(_ & _ & H) | (_ & H)]]; [by left | right | right];
        exists dropped, (prune (clock_limiter w) (API_CALLS s)); auto. }
    destruct q as [w f t d | w a f t d]; cbn [env_of compose]; apply H.
Qed.

(** X12. When calls are made one after the other (their start times never
    decrease), the records of the limiter stay in increasing order, so the
    pruning loop, which only looks at the front, leaves no expired record
    behind: after any such sequence of requests from a freshly loaded
    module, every record that survives a check is at most sixty seconds
    old. *)
Theorem limiter_window_holds_only_recent_calls (qs : list Request)
    (table : list Row) (w : Env) :
  Sorted Z.le ((clock_start ∘ env_of) <$> qs) ->
  Sorted Z.le (API_CALLS (run qs (initial table))) /\
  Forall (fun t => clock_limiter w - t <= 60000)
    (prune (clock_limiter w) (API_CALLS (run qs (initial table)))).
Proof.
  intros Hs.
  assert (Hsorted : Sorted Z.le (API_CALLS (run qs (initial table)))).
  { apply StronglySorted_Sorted, run_sorted. cbn [API_CALLS initial app].
    apply Sorted_StronglySorted; [|exact Hs]. intros x y z. lia. }
  split; [exact Hsorted|].
  eapply Forall_impl; [by apply prune_sorted|].
  cbn. unfold expired, ONE_MINUTE. intros t Ht. lia.
Qed.

Lemma limiter_window_holds_only_recent_calls_witness :
  Sorted Z.le
    (API_CALLS
       (run [GetRate (calm 1000) USD SAR day; GetRate (calm 2000) USD EGP day]
          (initial []))).
Proof.
  refine (proj1 (limiter_window_holds_only_recent_calls
                   [GetRate (calm 1000) USD SAR day;
                    GetRate (calm 2000) USD EGP day] [] (calm 3000) _)).
  cbn. repeat constructor. lia.
Defined.

(** ** Rates that reach the cache *)

(** X13. No zero and no NaN is ever cached. When the rates of the table are
    numbers other than zero, then after any sequence of requests from a
    freshly loaded module every rate in the cache and every rate in the
    table is a number other than zero: the provider's answer is refused when
    its rate is zero (the [!rate] test), so the truthiness test made when
    the cache is read never hides an entry. *)
Theorem cached_rates_are_never_zero (qs : list Request) (table : list Row)
    (d : string) (f t : Currency) (e : CacheEntry) :
  Forall (fun row => truthy (row_rate row) = true) table ->
  cache_get (exchangeRatesCache (run qs (initial table))) d f t = Some e ->
  truthy (rate e) = true /\
  Forall (fun row => truthy (row_rate row) = true)
    (exchange_rates (run qs (initial table))).
Proof.
  intros Htable Hget.
  assert (Hinit : rates_nonzero (initial table)).
  { split; [|exact Htable]. intros d' f' t' e'. cbn [exchangeRatesCache initial].
    unfold cache_get. rewrite lookup_empty. discriminate. }
  destruct (run_rates_nonzero qs (initial table) Hinit) as [Hcache Hrows].
  split; [by eapply Hcache | exact Hrows].
Qed.

Lemma cached_rates_are_never_zero_witness :
  truthy 3.75 = true.
Proof.
  refine (proj1 (cached_rates_are_never_zero
                   [GetRate (calm 1000) USD SAR day] [] day USD SAR
                   {| rate := 3.75; timestamp := 1000 |} _ _)).
  - constructor.
  - vm_compute. reflexivity.
Defined.

(** ** Answers of the provider that carry no usable rate *)

(** X14. For a call that reaches the provider: an answer whose [result] is
    "error" is rejected with "API Error: " followed by its error type, even
    when it also carries rates; an answer without the target currency, or
    with a rate of zero for it, is rejected with "No conversion rate found
    for " followed by the currency. In both cases no upsert is sent. *)
Theorem unusable_answers_are_rejected (w : Env) (f t : Currency) (d : string)
    (s : State) (data : ApiResponse) :
  f <> t ->
  cache_hit (exchangeRatesCache s) d f t (clock_start w) = None ->
  store_fresh w s f t d = None ->
  limiter_admits w s ->
  fetch_outcome w = inr data ->
  (result data = "error" ->
     getExchangeRate w f t d s =
       (Rejected (ErrorObject ("API Error: " +:+ error_type data)),
        set_calls (prune (clock_limiter w) (API_CALLS s) ++ [clock_start w]) s,
        [DbSelect f t d; HttpGet (provider_url f);
         ConsoleError "Error getting exchange rate:"])) /\
  (forall rates,
     result data <> "error" ->
     conversion_rates data = Some rates ->
     (rates !! code t = None \/
      exists r, rates !! code t = Some r /\ truthy r = false) ->
     getExchangeRate w f t d s =
       (Rejected (ErrorObject ("No conversion rate found for " +:+ code t)),
        set_calls (prune (clock_limiter w) (API_CALLS s) ++ [clock_start w]) s,
        [DbSelect f t d; HttpGet (provider_url f);
         ConsoleError "Error getting exchange rate:"])).
Proof.
  intros Hne Hmiss Hstore Hadm Hfetch. split.
  - intros Herr.
    rewrite (getExchangeRate_provider_fails w f t d s Hne Hmiss Hstore Hadm).
    + unfold provider_failure. rewrite Hfetch.
      rewrite bool_decide_eq_true_2 by exact Herr. reflexivity.
    + unfold provider_rate. rewrite Hfetch.
      rewrite bool_decide_eq_true_2 by exact Herr. reflexivity.
  - intros rates Hok Hrates Hnone.
    rewrite (getExchangeRate_provider_fails w f t d s Hne Hmiss Hstore Hadm).
    + unfold provider_failure. rewrite Hfetch.
      rewrite bool_decide_eq_false_2 by exact Hok. rewrite Hrates.
      reflexivity.
    + unfold provider_rate. rewrite Hfetch.
      rewrite bool_decide_eq_false_2 by exact Hok. rewrite Hrates.
      destruct Hnone as [-> | (r & -> & ->)]; reflexivity.
Qed.

Lemma unusable_answers_are_rejected_witness :
  outcome_of
    (getExchangeRate
       (answering 1000
          (error_reply "quota-reached" (Some {[ "SAR" := 3.75%float ]})))
       USD SAR day) (initial [])
  = Rejected (ErrorObject "API Error: quota-reached").
Proof.
  pose proof (unusable_answers_are_rejected
                (answering 1000
                   (error_reply "quota-reached" (Some {[ "SAR" := 3.75%float ]})))
                USD SAR day (initial [])
                (error_reply "quota-reached" (Some {[ "SAR" := 3.75%float ]})))
    as H.
  destruct H as [H _].
  - discriminate.
  - reflexivity.
  - reflexivity.
  - unfold limiter_admits, MAX_CALLS_PER_MINUTE. cbn. lia.
  - reflexivity.
  - unfold outcome_of. rewrite H by reflexivity. reflexivity.
Defined.

(** ** A database that is out of reach *)

(** X15. The database is optional. When the select fails and the upsert
    fails too, a call that the limiter admits and the provider answers is
    still fulfilled with the provider's rate. The rate is kept in memory,
    so the same call made again less than six hours later is answered
    without touching the database or the provider. *)
Theorem conversion_works_without_the_database (w w2 : Env) (f t : Currency)
    (d : string) (s : State) (r : float) (err : string) :
  f <> t ->
  cache_hit (exchangeRatesCache s) d f t (clock_start w) = None ->
  select_fails w = true ->
  upsert_error w = Some err ->
  limiter_admits w s ->
  provider_rate w t = Some r ->
  clock_start w2 - clock_start w < CACHE_EXPIRATION ->
  outcome_of (getExchangeRate w f t d) s = Fulfilled r /\
  exchange_rates (state_after (getExchangeRate w f t d) s) = exchange_rates s /\
  getExchangeRate w2 f t d (state_after (getExchangeRate w f t d) s)
  = (Fulfilled r, state_after (getExchangeRate w f t d) s, []).
Proof.
  intros Hne Hmiss Hsel Hup Hadm Hrate Hsoon.
  assert (Hstore : store_fresh w s f t d = None)
    by (unfold store_fresh; rewrite Hsel; reflexivity).
  unfold outcome_of, state_after.
  rewrite (getExchangeRate_fetched_unsaved w f t d s Hne Hmiss Hstore Hadm r err
             Hrate Hup).
  cbn [fst snd exchange_rates]. split; [reflexivity|]. split; [reflexivity|].
  apply getExchangeRate_hit; [exact Hne|]. cbn [exchangeRatesCache].
  apply cache_hit_put; [by eapply provider_rate_nonzero | exact Hsoon].
Qed.

Lemma conversion_works_without_the_database_witness :
  outcome_of (getExchangeRate (offline_store 1000) USD SAR day)
    (initial [usd_sar_row 3.5 900])
  = Fulfilled 3.75%float.
Proof.
  refine (proj1 (conversion_works_without_the_database (offline_store 1000)
                   (offline_store 2000) USD SAR day
                   (initial [usd_sar_row 3.5 900]) 3.75 "connection refused"
                   _ _ _ _ _ _ _)).
  - discriminate.
  - reflexivity.
  - reflexivity.
  - reflexivity.
  - unfold limiter_admits, MAX_CALLS_PER_MINUTE. cbn. lia.
  - reflexivity.
  - reflexivity.
Defined.

(** ** Converting to the preferred currency *)

(** X16. [convertToPreferred] hands back the amount itself, with no effect
    and no change of state, when the amount already is in the preferred
    currency. Otherwise it is [convertAmount]: a fulfilled call returns the
    amount multiplied by a rate that comes from a fresh cache entry, a fresh
    row of the store or the provider (never by the rate 1 of the identity
    shortcut), and a rejected call always carries the error "Failed to
    convert amount". *)
Theorem convertToPreferred_outcomes (preferred : Currency) (w : Env)
    (a : float) (f : Currency) (d : string) (s : State) :
  (f = preferred ->
     convertToPreferred preferred w a f d s = (Fulfilled a, s, [])) /\
  (forall v,
     f <> preferred ->
     outcome_of (convertToPreferred preferred w a f d) s = Fulfilled v ->
     exists r,
       v = (a * r)%float /\
       (cache_hit (exchangeRatesCache s) d f preferred (clock_start w) = Some r \/
        (exists row, store_fresh w s f preferred d = Some row /\ r = row_rate row) \/
        (limiter_admits w s /\ provider_rate w preferred = Some r))) /\
  (forall e,
     outcome_of (convertToPreferred preferred w a f d) s = Rejected e ->
     f <> preferred /\ e = ErrorObject "Failed to convert amount").
Proof.
  unfold convertToPreferred, outcome_of. split; [|split].
  - intros ->. rewrite bool_decide_eq_true_2 by reflexivity. reflexivity.
  - intros v Hne. rewrite bool_decide_eq_false_2 by exact Hne.
    rewrite convertAmount_eq.
    pose proof (getExchangeRate_path w f preferred d s) as P.
    inversion P; subst; cbn [fst]; try congruence; try discriminate;
      intros [= <-]; eauto 8.
  - intros e. destruct (decide (f = preferred)) as [->|Hne].
    + rewrite bool_decide_eq_true_2 by reflexivity. discriminate.
    + rewrite bool_decide_eq_false_2 by exact Hne. rewrite convertAmount_eq.
      destruct (getExchangeRate w f preferred d s) as [[[r|e'] s'] tr];
        cbn [fst]; [discriminate|]. intros [= <-]. auto.
Qed.

Lemma convertToPreferred_outcomes_witness :
  convertToPreferred SAR (calm 1000) 42 SAR day (saturated 900 [])
  = (Fulfilled 42%float, saturated 900 [], []).
Proof.
  refine (proj1 (convertToPreferred_outcomes SAR (calm 1000) 42 SAR day
                   (saturated 900 [])) _).
  reflexivity.
Defined.

(** ** The rows of the transactions screen *)

Lemma processTransaction_eq user w tx s :
  processTransaction user w tx s =
    if decide (tx_currency tx = user)
    then (Fulfilled {| transaction := tx;
                       convertedAmount := Some (tx_amount tx) |}, s, [])
    else
      match getExchangeRate w (tx_currency tx) user (tx_date tx) s with
      | (Fulfilled r, s', tr) =>
          (Fulfilled {| transaction := tx;
                        convertedAmount := Some (tx_amount tx * r)%float |},
           s', tr)
      | (Rejected _, s', tr) =>
          (Fulfilled {| transaction := tx; convertedAmount := None |}, s',
           tr ++ [ConsoleError "Error converting amount:";
                  ConsoleError "Error converting amount:"])
      end.
Proof.
  unfold processTransaction. destruct (decide (tx_currency tx = user)) as [Heq|Hne].
  - rewrite bool_decide_eq_false_2 by tauto. reflexivity.
  - rewrite bool_decide_eq_true_2 by exact Hne.
    unfold try_catch, bind at 1. rewrite convertAmount_eq.
    destruct (getExchangeRate w (tx_currency tx) user (tx_date tx) s)
      as [[[r|e] s'] tr]; cbn.
    + rewrite app_nil_r. reflexivity.
    + rewrite <- app_assoc. reflexivity.
Qed.

(** X17. The callback that converts one row of the transactions list never
    fails. A row already in the user's currency gets its own amount as
    converted amount, with no effect. For any other row, a successful
    conversion gives [amount * rate]; a failed one is logged (once by
    [convertAmount], once by the callback) and the row is returned without a
    converted amount: no default and no unconverted amount is put in its
    place. *)
Theorem processTransaction_never_rejects (user : Currency) (w : Env)
    (tx : Transaction) (s : State) :
  exists c,
    outcome_of (processTransaction user w tx) s = Fulfilled c /\
    transaction c = tx /\
    (tx_currency tx = user ->
       convertedAmount c = Some (tx_amount tx) /\
       effects_of (processTransaction user w tx) s = [] /\
       state_after (processTransaction user w tx) s = s) /\
    (tx_currency tx <> user ->
       state_after (processTransaction user w tx) s
       = state_after (getExchangeRate w (tx_currency tx) user (tx_date tx)) s /\
       (forall r,
          outcome_of (getExchangeRate w (tx_currency tx) user (tx_date tx)) s
          = Fulfilled r ->
          convertedAmount c = Some (tx_amount tx * r)%float) /\
       (forall e,
          outcome_of (getExchangeRate w (tx_currency tx) user (tx_date tx)) s
          = Rejected e ->
          convertedAmount c = None /\
          effects_of (processTransaction user w tx) s
          = effects_of (getExchangeRate w (tx_currency tx) user (tx_date tx)) s
            ++ [ConsoleError "Error converting amount:";
                ConsoleError "Error converting amount:"])).
Proof.
  unfold outcome_of, effects_of, state_after.
  rewrite processTransaction_eq.
  destruct (decide (tx_currency tx = user)) as [Heq|Hne].
  - eexists. split; [reflexivity|]. cbn. split; [reflexivity|].
    split; [auto | intros Hne; contradiction].
  - destruct (getExchangeRate w (tx_currency tx) user (tx_date tx) s)
      as [[[r|e] s'] tr]; cbn.
    + eexists. split; [reflexivity|]. cbn. split; [reflexivity|].
      split; [intros Heq; contradiction|]. intros _.
      split; [reflexivity|]. split; [by intros r' [= <-] | discriminate].
    + eexists. split; [reflexivity|]. cbn. split; [reflexivity|].
      split; [intros Heq; contradiction|]. intros _.
      split; [reflexivity|]. split; [discriminate|]. intros e' _.
      split; reflexivity.
Qed.

Lemma processTransaction_never_rejects_witness :
  exists c,
    outcome_of (processTransaction USD (calm 21601000) (sar_purchase 10 day))
      (saturated 21600500 []) = Fulfilled c /\
    convertedAmount c = None.
Proof.
  destruct (processTransaction_never_rejects USD (calm 21601000)
              (sar_purchase 10 day) (saturated 21600500 []))
    as (c & Hc & _ & _ & H).
  exists c. split; [exact Hc|].
  destruct H as (_ & _ & H); [discriminate|].
  refine (proj1 (H RATE_LIMIT_ERROR _)). vm_compute. reflexivity.
Defined.

(** ** The balance chart *)

Section ChartProperties.

Variable toLocaleDateString : string -> string.

Lemma obj_set_keys k v o :
  NoDup (fst <$> o) -> NoDup (fst <$> obj_set k v o).
Proof.
  induction o as [|[k' v'] rest IH]; cbn; intros Hnd.
  - apply NoDup_singleton.
  - apply NoDup_cons in Hnd as [Hk Hrest].
    destruct (decide (k' = k)) as [->|Hne].
    + rewrite bool_decide_eq_true_2 by reflexivity. cbn.
      apply NoDup_cons. split; assumption.
    + rewrite bool_decide_eq_false_2 by exact Hne. cbn.
      apply NoDup_cons. split; [|by apply IH].
      clear IH Hrest. induction rest as [|[k'' v''] rest IH]; cbn.
      * rewrite list_elem_of_singleton. exact Hne.
      * cbn in Hk. rewrite not_elem_of_cons in Hk. destruct Hk as [Hk1 Hk2].
        destruct (bool_decide (k'' = k)); cbn;
          rewrite not_elem_of_cons; auto.
Qed.

Lemma obj_set_length k v o : (length (obj_set k v o) <= S (length o))%nat.
Proof.
  induction o as [|[k' v'] rest IH]; cbn; [lia|].
  destruct (bool_decide (k' = k)); cbn; lia.
Qed.

Lemma changes_keys (txs : list Converted) : forall acc,
  NoDup (fst <$> acc) ->
  NoDup (fst <$> foldl (add_change toLocaleDateString) acc txs).
Proof.
  induction txs as [|c rest IH]; intros acc Hnd; cbn; [exact Hnd|].
  apply IH. by apply obj_set_keys.
Qed.

Lemma changes_length (txs : list Converted) : forall acc,
  (length (foldl (add_change toLocaleDateString) acc txs)
   <= length acc + length txs)%nat.
Proof.
  induction txs as [|c rest IH]; intros acc; cbn; [lia|].
  etransitivity; [apply IH|].
  unfold add_change. cbv zeta.
  match goal with |- context [obj_set ?k ?v acc] =>
    pose proof (obj_set_length k v acc) end.
  lia.
Qed.

Lemma plot_shape entries : forall balance,
  length (plot entries balance).1 = length (plot entries balance).2 /\
  Forall (fun x => is_finite x = true) (plot entries balance).2 /\
  (plot entries balance).1 `sublist_of` (fst <$> entries).
Proof.
  induction entries as [|[date change] rest IH]; intros balance; cbn.
  - repeat split; constructor.
  - destruct (IH (balance + change)%float) as (Hlen & Hfin & Hsub).
    destruct (plot rest (balance + change)) as [labels data]. cbn in *.
    destruct (is_finite (balance + change)) eqn:Hf; cbn.
    + repeat split; [by f_equal | by constructor | by constructor].
    + repeat split; [exact Hlen | exact Hfin | by constructor].
Qed.

Lemma plot_balances entries : forall balance,
  plot entries balance =
    ((filter (fun p => is_finite p.2 = true) (balances entries balance)).*1,
     (filter (fun p => is_finite p.2 = true) (balances entries balance)).*2).
Proof.
  induction entries as [|[date change] rest IH]; intros balance;
    [reflexivity|].
  cbn [plot balances]. rewrite IH.
  destruct (is_finite (balance + change)) eqn:Hf.
  - rewrite filter_cons_True by exact Hf. reflexivity.
  - rewrite filter_cons_False by (cbn; rewrite Hf; discriminate). reflexivity.
Qed.

Lemma filter_none_finite (l : list (string * float)) :
  Forall (fun p => is_finite p.2 = false) l ->
  filter (fun p => is_finite p.2 = true) l = [].
Proof.
  induction 1 as [|p l Hp _ IH]; [reflexivity|].
  rewrite filter_cons_False by (rewrite Hp; discriminate). exact IH.
Qed.

Lemma filter_some_finite (l : list (string * float)) :
  Exists (fun p => is_finite p.2 = true) l ->
  filter (fun p => is_finite p.2 = true) l <> [].
Proof.
  induction 1 as [p l Hp | p l _ IH].
  - rewrite filter_cons_True by exact Hp. discriminate.
  - destruct (decide (is_finite p.2 = true)) as [Hp|Hp].
    + rewrite filter_cons_True by exact Hp. discriminate.
    + rewrite filter_cons_False by exact Hp. exact IH.
Qed.

(** X18. What [getChartData] hands to the chart can always be drawn: there
    are as many labels as data points, there is at least one point, and
    every point is a finite number (no NaN, no infinity), whatever the
    amounts of the transactions are. With no transaction, or when no
    running balance is finite, it is the single point 0 labelled "Today";
    as soon as one running balance is finite, it is the days whose running
    balance is finite, in order, each with that balance. *)
Theorem chart_data_is_drawable (recent : list Converted) :
  let '(labels, data) := getChartData toLocaleDateString recent in
  let running := balances (daily_changes toLocaleDateString recent) 0%float in
  let finite := filter (fun p => is_finite p.2 = true) running in
  length labels = length data /\
  (1 <= length data)%nat /\
  Forall (fun x => is_finite x = true) data /\
  (recent = [] -> (labels, data) = (["Today"], [0%float])) /\
  (Forall (fun p => is_finite p.2 = false) running ->
     (labels, data) = (["Today"], [0%float])) /\
  (Exists (fun p => is_finite p.2 = true) running ->
     (labels, data) = (finite.*1, finite.*2)).
Proof.
  unfold getChartData.
  destruct recent as [|c rest].
  { rewrite bool_decide_eq_true_2 by reflexivity. cbv zeta.
    split; [reflexivity|]. split; [cbn; lia|].
    split; [by repeat constructor|]. split; [reflexivity|].
    split; [reflexivity|]. cbn. intros H. by apply Exists_nil in H. }
  rewrite bool_decide_eq_false_2 by discriminate.
  destruct (plot_shape (daily_changes toLocaleDateString (c :: rest)) 0%float)
    as (Hlen & Hfin & _).
  pose proof (plot_balances (daily_changes toLocaleDateString (c :: rest))
                0%float) as Hplot.
  destruct (plot _ _) as [labels data]. cbn in Hlen, Hfin.
  injection Hplot as Hlabels Hdata.
  destruct data as [|x data].
  - rewrite bool_decide_eq_true_2 by reflexivity. cbv zeta.
    split; [reflexivity|]. split; [cbn; lia|].
    split; [by repeat constructor|]. split; [discriminate|].
    split; [reflexivity|].
    intros Hsome. apply filter_some_finite in Hsome.
    symmetry in Hdata. apply fmap_nil_inv in Hdata. contradiction.
  - rewrite bool_decide_eq_false_2 by discriminate. cbv zeta.
    split; [exact Hlen|]. split; [cbn; lia|].
    split; [exact Hfin|]. split; [discriminate|]. split.
    + intros Hnone. apply filter_none_finite in Hnone.
      rewrite Hnone in Hdata. discriminate.
    + intros _. rewrite Hlabels, Hdata. reflexivity.
Qed.

(** X19. The chart has one point per day at most: its labels are pairwise
    different, and there are no more points than transactions (one point
    for the placeholder when there is none). *)
Theorem chart_has_one_point_per_day (recent : list Converted) :
  NoDup (getChartData toLocaleDateString recent).1 /\
  (length (getChartData toLocaleDateString recent).2
   <= Nat.max 1 (length recent))%nat.
Proof.
  unfold getChartData.
  destruct (bool_decide (length recent = 0%nat)).
  { cbn. split; [apply NoDup_singleton | lia]. }
  destruct (plot_shape (daily_changes toLocaleDateString recent) 0%float)
    as (Hlen & _ & Hsub).
  assert (Hkeys : NoDup (fst <$> daily_changes toLocaleDateString recent)).
  { unfold daily_changes. apply changes_keys. constructor. }
  assert (Hsize : (length (daily_changes toLocaleDateString recent)
                   <= length recent)%nat).
  { unfold daily_changes.
    etransitivity; [apply changes_length|]. rewrite length_reverse. cbn. lia. }
  destruct (plot _ _) as [labels data]. cbn in Hlen, Hsub.
  destruct (bool_decide (length data = 0%nat)); cbn.
  - split; [apply NoDup_singleton | lia].
  - split; [by eapply sublist_NoDup|].
    rewrite <- Hlen. apply sublist_length in Hsub.
    rewrite length_fmap in Hsub. lia.
Qed.

End ChartProperties.

Lemma chart_data_is_drawable_witness :
  getChartData (fun day => day) [windfall] = (["Today"], [0%float]).
Proof.
  pose proof (chart_data_is_drawable (fun day => day) [windfall]) as H.
  destruct (getChartData (fun day => day) [windfall]) as [labels data].
  destruct H as (_ & _ & _ & _ & H & _). apply H.
  vm_compute. repeat constructor.
Defined.

(** ** The rate that the limiter enforces *)

Lemma serve_requests q s :
  Exists is_request (effects_of (serve q) s) <->
  Exists is_request
    (effects_of
       (match q with
        | GetRate w f t d => getExchangeRate w f t d
        | Convert w _ f t d => getExchangeRate w f t d
        end) s).
Proof.
  destruct q as [w f t d | w a f t d]; cbn [serve]; [reflexivity|].
  unfold effects_of. rewrite convertAmount_eq.
  destruct (getExchangeRate w f t d s) as [[[r|e] s'] tr]; cbn [snd];
    [reflexivity|].
  rewrite Exists_app, Exists_cons, Exists_nil. cbn. tauto.
Qed.

(** What one served request does at the gate. *)
Lemma serve_gate_cases q s :
  let w := env_of q in
  let s' := state_after (serve q) s in
  let kept := prune (clock_limiter w) (API_CALLS s) in
  (Exists is_request (effects_of (serve q) s) /\
   (length kept < MAX_CALLS_PER_MINUTE)%nat /\
   API_CALLS s' = kept ++ [clock_start w]) \/
  (~ Exists is_request (effects_of (serve q) s) /\
   (API_CALLS s' = API_CALLS s \/ API_CALLS s' = kept)).
Proof.
  cbv zeta. rewrite serve_requests, serve_state.
  assert (H : forall w f t d,
    (Exists is_request (effects_of (getExchangeRate w f t d) s) /\
     (length (prune (clock_limiter w) (API_CALLS s)) < MAX_CALLS_PER_MINUTE)%nat /\
     API_CALLS (state_after (getExchangeRate w f t d) s)
     = prune (clock_limiter w) (API_CALLS s) ++ [clock_start w]) \/
    (~ Exists is_request (effects_of (getExchangeRate w f t d) s) /\
     (API_CALLS (state_after (getExchangeRate w f t d) s) = API_CALLS s \/
      API_CALLS (state_after (getExchangeRate w f t d) s)
      = prune (clock_limiter w) (API_CALLS s)))).
  { intros w f t d. unfold effects_of, state_after.
    pose proof (getExchangeRate_path w f t d s) as P.
    inversion P; subst; cbn [fst snd API_CALLS set_cache set_calls].
    1-4: right; split; [|auto];
         intros Hsent;
         repeat (apply Exists_cons in Hsent as [Hsent|Hsent]; [exact Hsent|]);
         by apply Exists_nil in Hsent.
    all: left; split; [apply Exists_cons_tl, Exists_cons_hd; exact I|];
         split; [assumption | reflexivity]. }
  destruct q as [w f t d | w a f t d]; cbn [env_of]; apply H.
Qed.

Lemma thirty_back_is_dropped {A} (dropped kept : list A) (x : A) (i : nat) :
  (length kept < 30)%nat ->
  (dropped ++ kept) !! i = Some x ->
  (i + 30 <= length (dropped ++ kept))%nat ->
  x ∈ dropped.
Proof.
  intros Hlen Hi Hidx. rewrite length_app in Hidx.
  rewrite lookup_app_l in Hi by lia.
  by eapply list_elem_of_lookup_2.
Qed.

(** The invariant behind the bound: the starts recorded so far are the
    records still held, preceded by records that are expired at every check
    still to come. *)
Lemma sent_requests_spaced qs : forall s history dropped,
  Sorted Z.le ((clock_limiter ∘ env_of) <$> qs) ->
  history = dropped ++ API_CALLS s ->
  Forall (fun t => Forall (fun c => 60000 < c - t)
                     ((clock_limiter ∘ env_of) <$> qs)) dropped ->
  forall j h' c' i t,
    sent_requests qs s !! j = Some (h', c') ->
    (history ++ (fst <$> sent_requests qs s)) !! i = Some t ->
    (i + 30 <= length history + j)%nat ->
    60000 < c' - t.
Proof.
  induction qs as [|q rest IH]; intros s history dropped Hsorted Hhist Hdrop
    j h' c' i t Hj Hi Hidx; [discriminate|].
  rewrite fmap_cons in Hsorted, Hdrop.
  apply Sorted_StronglySorted in Hsorted; [|intros x y z; lia].
  apply StronglySorted_cons in Hsorted as [Hfirst Hrest].
  apply StronglySorted_Sorted in Hrest.
  cbn [compose] in Hfirst, Hdrop.
  destruct (prune_split (clock_limiter (env_of q)) (API_CALLS s))
    as (pruned & Hcalls & Hpruned).
  assert (Hdrop' : Forall (fun t => Forall (fun c => 60000 < c - t)
                     ((clock_limiter ∘ env_of) <$> rest)) (dropped ++ pruned)).
  { apply Forall_app. split.
    - eapply Forall_impl; [exact Hdrop|]. cbn. intros x Hx.
      by apply Forall_cons in Hx as [_ Hx].
    - eapply Forall_impl; [exact Hpruned|]. cbn.
      unfold expired, ONE_MINUTE. intros x Hx.
      eapply Forall_impl; [exact Hfirst|]. cbn. intros c Hc. lia. }
  assert (Hdrop0 : Forall (fun t => Forall (fun c => 60000 < c - t)
                     ((clock_limiter ∘ env_of) <$> rest)) dropped).
  { apply Forall_app in Hdrop' as [H _]. exact H. }
  cbn [sent_requests] in Hj, Hi. cbv zeta in Hj, Hi.
  destruct (serve_gate_cases q s) as [(Hsent & Hlen & Hs') | (Hno & Hs')].
  - rewrite decide_True in Hj, Hi by exact Hsent. cbn [fmap list_fmap fst] in Hi.
    assert (Hhist' : history ++ [clock_start (env_of q)]
                     = (dropped ++ pruned)
                       ++ API_CALLS (state_after (serve q) s)).
    { rewrite Hs', Hhist. rewrite Hcalls at 1.
      rewrite <- !app_assoc. reflexivity. }
    destruct j as [|j].
    + injection Hj as <- <-.
      assert (Hall : history = (dropped ++ pruned)
                       ++ prune (clock_limiter (env_of q)) (API_CALLS s)).
      { rewrite Hhist. rewrite Hcalls at 1. by rewrite <- app_assoc. }
      assert (Hin : t ∈ dropped ++ pruned).
      { rewrite Hall in Hi, Hidx.
        rewrite lookup_app_l in Hi by lia.
        eapply thirty_back_is_dropped; [|exact Hi|lia].
        unfold MAX_CALLS_PER_MINUTE in Hlen. exact Hlen. }
      apply elem_of_app in Hin as [Hin|Hin].
      * apply (proj1 (Forall_forall _ _) Hdrop) in Hin.
        by apply Forall_cons in Hin as [Hin _].
      * apply (proj1 (Forall_forall _ _) Hpruned) in Hin.
        unfold expired, ONE_MINUTE in Hin. exact Hin.
    + cbn in Hj.
      eapply (IH (state_after (serve q) s)
                (history ++ [clock_start (env_of q)]) (dropped ++ pruned)
                Hrest Hhist' Hdrop' j h' c' i t Hj).
      * rewrite <- app_assoc. exact Hi.
      * rewrite length_app. cbn. lia.
  - rewrite decide_False in Hj, Hi by exact Hno.
    destruct Hs' as [Hs'|Hs'].
    + eapply (IH (state_after (serve q) s) history dropped Hrest);
        try eassumption.
      rewrite Hs'. exact Hhist.
    + eapply (IH (state_after (serve q) s) history (dropped ++ pruned) Hrest);
        try eassumption.
      rewrite Hs', Hhist. rewrite Hcalls at 1. by rewrite <- app_assoc.
Qed.

(** X20. The rate the limiter enforces. Over any sequence of requests served
    from a freshly loaded module with limiter checks in chronological
    order, thirty requests at most are sent to the provider in the sixty
    seconds that follow the start of a call that sent one: the request that
    comes thirty requests later is sent more than sixty seconds after that
    start. *)
Theorem provider_rate_is_bounded (qs : list Request) (table : list Row)
    (i : nat) (h c h' c' : Z) :
  Sorted Z.le ((clock_limiter ∘ env_of) <$> qs) ->
  sent_requests qs (initial table) !! i = Some (h, c) ->
  sent_requests qs (initial table) !! (i + 30)%nat = Some (h', c') ->
  60000 < c' - h.
Proof.
  intros Hsorted Hi Hj.
  eapply (sent_requests_spaced qs (initial table) [] [] Hsorted eq_refl
            (Forall_nil_2 _) (i + 30)%nat h' c' i h Hj).
  - cbn [app]. rewrite list_lookup_fmap, Hi. reflexivity.
  - cbn. lia.
Qed.

Lemma provider_rate_is_bounded_witness : 60000 < 90000 - 0.
Proof.
  apply (provider_rate_is_bounded polling [] 0 0 0 90000 90000).
  - apply (bool_decide_unpack _). vm_compute. exact I.
  - vm_compute. reflexivity.
  - vm_compute. reflexivity.
Defined.
